(** * mwoffliner scrape pipeline: a shallow embedding and its properties

    The development follows the TypeScript sources of the scraper:
    - [Downloader] (rate adaptation, back-off, URL prefix cache, blob cache),
    - [util/articleRenderers.ts] (category pagination, display titles),
    - [util/saveArticles.ts] (file store upgrades, media treatment, heading
      clean-up),
    - [util/misc.ts] ([getSizeFromUrl], [getRelativeFilePath], ...).

    JavaScript values are modelled as follows: strings are [string], integral
    numbers are [Z] or [N] (exact below 2^53), a number that may be
    fractional is a rational [Q], [undefined]/[null] is [None],
    a thrown exception is an explicit [Throw] result, objects used as
    dictionaries are [gmap]s or, where enumeration order matters, association
    lists in insertion order. *)

From Stdlib Require Import ZArith NArith QArith Qround Lia Bool Ascii String List Permutation.
From stdpp Require Import base option list gmap strings pretty sorting.

Local Close Scope Q_scope.
Local Open Scope string_scope.
Local Open Scope list_scope.

#[local] Set Warnings "-clear-no-such-hyp".

(** ** JavaScript string primitives *)

Module Js.

(** [s.startsWith(p)] *)
Definition startsWith (p s : string) : bool := String.prefix p s.

(** [s.substr(n)] *)
Fixpoint dropStr (n : nat) (s : string) : string :=
  match n, s with
  | O, _ => s
  | S n', String _ s' => dropStr n' s'
  | S _, EmptyString => EmptyString
  end.

(** [s.replace(pat, rep)] for a string pattern: only the first occurrence is
    replaced; an empty pattern matches at position 0. *)
Fixpoint replaceFirst (pat rep s : string) : string :=
  if String.prefix pat s then rep +:+ dropStr (String.length pat) s
  else match s with
       | EmptyString => EmptyString
       | String c s' => String c (replaceFirst pat rep s')
       end.

(** [s.replace(/c/g, d)] for one-character [c] and [d]. *)
Fixpoint replaceAllChar (c d : ascii) (s : string) : string :=
  match s with
  | EmptyString => EmptyString
  | String a s' =>
      String (if Ascii.eqb a c then d else a) (replaceAllChar c d s')
  end.

(** [s.split(c)] for a one-character separator: never the empty list. *)
Fixpoint split (c : ascii) (s : string) : list string :=
  match s with
  | EmptyString => [EmptyString]
  | String a s' =>
      if Ascii.eqb a c then EmptyString :: split c s'
      else match split c s' with
           | [] => [String a EmptyString]
           | w :: ws => String a w :: ws
           end
  end.

(** [parts.join(c)] *)
Fixpoint join (c : string) (parts : list string) : string :=
  match parts with
  | [] => EmptyString
  | [w] => w
  | w :: ws => w +:+ c +:+ join c ws
  end.

(** [s.repeat(n)] *)
Fixpoint repeatStr (s : string) (n : nat) : string :=
  match n with
  | O => EmptyString
  | S n' => s +:+ repeatStr s n'
  end.

(** Template-literal rendering of a possibly undefined string. *)
Definition show (o : option string) : string :=
  match o with Some s => s | None => "undefined" end.

(** Truthiness of a string: the empty string is falsy. *)
Definition truthy (s : string) : bool :=
  match s with EmptyString => false | _ => true end.

(** [a || b] on strings. *)
Definition orElse (a b : string) : string := if truthy a then a else b.

End Js.

(** ** Downloader: adaptive concurrency and back-off *)

Module Downloader.

(** The error object handed around by axios: [err.code] and
    [err.response.status] (absent when no response was received). *)
Record AxiosError := {
  code : option string;
  responseStatus : option Z
}.

(** What one [axios.get] settles to. *)
Inductive Settled (A : Type) :=
| Resolved (a : A)
| Rejected (e : AxiosError).
Arguments Resolved {A} a.
Arguments Rejected {A} e.

Definition hasStatus (e : AxiosError) (s : Z) : bool :=
  match responseStatus e with
  | Some s' => Z.eqb s' s
  | None => false
  end.

(** [retryIf] of [backoffOptions]:
    [err.code === 'ECONNABORTED' || err.response?.status !== 404]. *)
Definition retryIf (e : AxiosError) : bool :=
  match code e with
  | Some c => String.eqb c "ECONNABORTED"
  | None => false
  end || negb (hasStatus e 404).

(** [failAfter] of [backoffOptions]. *)
Definition failAfter : nat := 7.

(** [Math.ceil(m * 0.9)] on an integral [m]. *)
Definition ceil09 (m : Z) : Z := (9 * m + 9) / 10.

(** [Math.max(Math.ceil(this.maxActiveRequests * 0.9), 1)] *)
Definition newMaxActiveRequests (m : Z) : Z := Z.max (ceil09 m) 1.

(** The mutable fields of the class that the request path touches, for a
    [speed] that is a whole number.  [DownloaderNum] below takes any number
    and agrees with this module on the whole ones ([LimitFacts]). *)
Record State := {
  speed : Z;
  maxActiveRequests : Z;
  activeRequests : Z
}.

(** The constructor: [this.maxActiveRequests = speed * 10]. *)
Definition constructor (speed : Z) : State :=
  {| speed := speed; maxActiveRequests := speed * 10; activeRequests := 0 |}.

Definition setMax (st : State) (m : Z) : State :=
  {| speed := speed st; maxActiveRequests := m;
     activeRequests := activeRequests st |}.

(** One attempt of [claimRequest]: the slot is taken when
    [activeRequests < maxActiveRequests], otherwise the caller sleeps 200 ms
    and tries again ([None]). *)
Definition claimRequest (st : State) : option State :=
  if Z.ltb (activeRequests st) (maxActiveRequests st)
  then Some {| speed := speed st; maxActiveRequests := maxActiveRequests st;
               activeRequests := activeRequests st + 1 |}
  else None.

Definition releaseRequest (st : State) : State :=
  {| speed := speed st; maxActiveRequests := maxActiveRequests st;
     activeRequests := activeRequests st - 1 |}.

(** What the node-style [handler] passed to a request callback has seen when
    the callback is done: a value, an error, or no call at all. *)
Inductive Handled (A : Type) :=
| Value (a : A)
| Error (e : AxiosError)
| NotCalled.
Arguments Value {A} a.
Arguments Error {A} e.
Arguments NotCalled {A}.

(** [errHandler]: a 429 lowers [maxActiveRequests]; the handler always gets
    the error. *)
Definition errHandler {A} (st : State) (e : AxiosError) : State * Handled A :=
  (if hasStatus e 429 then setMax st (newMaxActiveRequests (maxActiveRequests st))
   else st,
   Error e).

(** [getJSONCb].  The network is the list of the outcomes of the successive
    [axios.get] calls; the function re-issues the request itself on a 429,
    calls the handler on success and on a 404, and on any other rejection
    does nothing.  An exhausted list is a request still in flight.  The
    result also gives the number of requests issued. *)
Fixpoint getJSONCb {A} (st : State) (net : list (Settled A))
  : State * Handled A * nat * list (Settled A) :=
  match net with
  | [] => (st, NotCalled, 1%nat, [])
  | Resolved a :: net' => (st, Value a, 1%nat, net')
  | Rejected e :: net' =>
      if hasStatus e 429 then
        let '(st', h, n, rest) :=
          getJSONCb (setMax st (newMaxActiveRequests (maxActiveRequests st))) net'
        in (st', h, S n, rest)
      else if hasStatus e 404 then (st, Error e, 1%nat, net')
      else (st, NotCalled, 1%nat, net')
  end.

(** The non-image branch of [getContentCb]: the body is post-processed by
    [getCompressedBody] (which may throw, giving an error without response);
    every rejection goes through [errHandler]. *)
Definition getContentCb {A B} (compress : A -> option B) (st : State)
  (net : list (Settled A)) : State * Handled B * nat * list (Settled A) :=
  match net with
  | [] => (st, NotCalled, 1%nat, [])
  | Resolved a :: net' =>
      match compress a with
      | Some b => (st, Value b, 1%nat, net')
      | None =>
          let '(st', h) := errHandler st {| code := None; responseStatus := None |}
          in (st', h, 1%nat, net')
      end
  | Rejected e :: net' =>
      let '(st', h) := errHandler st e in (st', h, 1%nat, net')
  end.

(** How a [backoff.call] ends. *)
Inductive CallEnd (A : Type) :=
| Completed (a : A)
| Failed (e : AxiosError)
| Pending.
Arguments Completed {A} a.
Arguments Failed {A} e.
Arguments Pending {A}.

(** [backoffCall]: the contract of the [backoff] package's function call.
    The wrapped function is invoked; a value completes the call; an error
    for which [retryIf] is false, or that arrives when [backoffs] back-offs
    have been used, fails it; any other error schedules the next invocation
    after the strategy's delay.  A callback that is never invoked leaves the
    call pending.  The result counts the invocations of the function. *)
Fixpoint backoffCall {A N}
  (fn : State -> N -> State * Handled A * nat * N)
  (backoffs : nat) (st : State) (net : N)
  : State * CallEnd A * nat * N :=
  let '(st', h, _, net') := fn st net in
  match h with
  | Value a => (st', Completed a, 1%nat, net')
  | NotCalled => (st', Pending, 1%nat, net')
  | Error e =>
      if retryIf e then
        match backoffs with
        | O => (st', Failed e, 1%nat, net')
        | S b =>
            let '(st'', r, n, net'') := backoffCall fn b st' net' in
            (st'', r, S n, net'')
        end
      else (st', Failed e, 1%nat, net')
  end.

(** [getJSON] once the slot is claimed: the promise is settled by the
    call's terminal callback, which also releases the slot; a pending call
    never settles and keeps the slot. *)
Definition getJSON {A} (st : State) (net : list (Settled A))
  : State * CallEnd A * nat * list (Settled A) :=
  let '(st', r, n, net') := backoffCall getJSONCb failAfter st net in
  match r with
  | Pending => (st', r, n, net')
  | _ => (releaseRequest st', r, n, net')
  end.

(** [downloadContent] for a URL that is not routed through the blob cache. *)
Definition downloadContent {A B} (compress : A -> option B) (st : State)
  (net : list (Settled A)) : State * CallEnd B * nat * list (Settled A) :=
  let '(st', r, n, net') := backoffCall (getContentCb compress) failAfter st net in
  match r with
  | Pending => (st', r, n, net')
  | _ => (releaseRequest st', r, n, net')
  end.

(** The events that touch the Downloader's counters during a run. *)
Inductive Event :=
| EvClaim                             (* claimRequest, one polling attempt *)
| EvRelease                           (* releaseRequest *)
| EvJsonRejected (e : AxiosError)     (* the catch branch of getJSONCb *)
| EvErrHandler (e : AxiosError)       (* errHandler *)
| EvResolved.                         (* a request resolved *)

Definition step (st : State) (ev : Event) : State :=
  match ev with
  | EvClaim => match claimRequest st with Some st' => st' | None => st end
  | EvRelease => releaseRequest st
  | EvJsonRejected e =>
      if hasStatus e 429
      then setMax st (newMaxActiveRequests (maxActiveRequests st))
      else st
  | EvErrHandler e => fst (errHandler (A := unit) st e)
  | EvResolved => st
  end.

Definition run (speed : Z) (evs : list Event) : State :=
  fold_left step evs (constructor speed).

Definition is429 (ev : Event) : bool :=
  match ev with
  | EvJsonRejected e | EvErrHandler e => hasStatus e 429
  | _ => false
  end.

End Downloader.

(** ** The limit on parallel requests when [speed] is any number *)

Module DownloaderNum.

Import Downloader.

(** The fields that the limit depends on.  [speed] is what the caller
    passes, a number that need not be whole; the rationals stand for the
    numbers, with exact arithmetic. *)
Record State := {
  speed : Q;
  maxActiveRequests : Q;
  activeRequests : Z
}.

(** The constructor: [this.maxActiveRequests = speed * 10]. *)
Definition constructor (speed : Q) : State :=
  {| speed := speed; maxActiveRequests := speed * 10; activeRequests := 0 |}.

Definition setMax (st : State) (m : Q) : State :=
  {| speed := speed st; maxActiveRequests := m;
     activeRequests := activeRequests st |}.

(** One attempt of [claimRequest], and [releaseRequest]. *)
Definition claimRequest (st : State) : option State :=
  if negb (Qle_bool (maxActiveRequests st) (inject_Z (activeRequests st)))
  then Some {| speed := speed st; maxActiveRequests := maxActiveRequests st;
               activeRequests := (activeRequests st + 1)%Z |}
  else None.

Definition releaseRequest (st : State) : State :=
  {| speed := speed st; maxActiveRequests := maxActiveRequests st;
     activeRequests := (activeRequests st - 1)%Z |}.

(** [Math.max(Math.ceil(this.maxActiveRequests * 0.9), 1)] *)
Definition newMaxActiveRequests (m : Q) : Q :=
  inject_Z (Z.max (Qceiling (m * (9 # 10))) 1).

(** [errHandler]: a 429 sets the new limit; the handler always gets the
    error. *)
Definition errHandler {A} (st : State) (e : AxiosError) : State * Handled A :=
  (if hasStatus e 429 then setMax st (newMaxActiveRequests (maxActiveRequests st))
   else st,
   Error e).

(** [getJSONCb]: on a 429 the new limit is set and the request is issued
    again by the function itself. *)
Fixpoint getJSONCb {A} (st : State) (net : list (Settled A))
  : State * Handled A * nat * list (Settled A) :=
  match net with
  | [] => (st, NotCalled, 1%nat, [])
  | Resolved a :: net' => (st, Value a, 1%nat, net')
  | Rejected e :: net' =>
      if hasStatus e 429 then
        let '(st', h, n, rest) :=
          getJSONCb (setMax st (newMaxActiveRequests (maxActiveRequests st))) net'
        in (st', h, S n, rest)
      else if hasStatus e 404 then (st, Error e, 1%nat, net')
      else (st, NotCalled, 1%nat, net')
  end.

(** The operations of a run: the slot counter, and the two places that
    assign the limit after the constructor. *)
Inductive Op (A : Type) :=
| OpClaim
| OpRelease
| OpErrHandler (e : AxiosError)
| OpGetJSONCb (net : list (Settled A)).
Arguments OpClaim {A}.
Arguments OpRelease {A}.
Arguments OpErrHandler {A} e.
Arguments OpGetJSONCb {A} net.

Definition apply {A} (st : State) (op : Op A) : State :=
  match op with
  | OpClaim => default st (claimRequest st)
  | OpRelease => releaseRequest st
  | OpErrHandler e => (errHandler (A := A) st e).1
  | OpGetJSONCb net => (getJSONCb st net).1.1.1
  end.

Definition run {A} (speed : Q) (ops : list (Op A)) : State :=
  fold_left apply ops (constructor speed).

(** The operation meets an HTTP 429. *)
Definition receives429 {A} (op : Op A) : bool :=
  match op with
  | OpErrHandler e => hasStatus e 429
  | OpGetJSONCb (Rejected e :: _) => hasStatus e 429
  | _ => false
  end.

(** A state of the whole-number model, as a state of this one. *)
Definition ofWhole (st : Downloader.State) : State :=
  {| speed := inject_Z (Downloader.speed st);
     maxActiveRequests := inject_Z (Downloader.maxActiveRequests st);
     activeRequests := Downloader.activeRequests st |}.

Definition tooManyRequests : AxiosError :=
  {| code := None; responseStatus := Some 429%Z |}.

End DownloaderNum.

(** ** Results of code that may throw *)

Inductive Completion (A : Type) :=
| Throw
| Return (a : A).
Arguments Throw {A}.
Arguments Return {A} a.

#[global] Instance completion_ret : MRet Completion := fun A a => Return a.
#[global] Instance completion_bind : MBind Completion := fun A B k c =>
  match c with
  | Throw => Throw
  | Return a => k a
  end.

Definition ofOption {A} (o : option A) : Completion A :=
  match o with Some a => Return a | None => Throw end.

(** ** Renderer: [util/articleRenderers.ts] *)

Module Renderer.

Record PageInfo := {
  pageid : Z;
  ns : Z;
  title : string
}.

(** [ArticleDetail] of [types.d.ts], with the fields the renderer reads or
    writes. *)
Record ArticleDetail := {
  info : PageInfo;
  subCategories : option (list PageInfo);
  categories : option (list PageInfo);
  pages : option (list PageInfo);
  nextArticleId : option string;
  prevArticleId : option string
}.

Record RenderedArticle := {
  articleId : string;
  displayTitle : string;
  html : option string
}.

Record Lead := { displaytitle : string }.

(** The upstream response, as far as the dispatch inspects it. *)
Record Json := {
  visualeditor : option string;           (* json.visualeditor.content *)
  contentmodel : option string;
  htmlBody : option (option string);      (* json.html, then .body *)
  parseText : option string;              (* json.parse.text['*'] *)
  error : bool;
  lead : option Lead
}.

(** What the renderer obtains from the DOM parser (domino) and from the
    templates.  [injectHeader] and [renderMCSArticle] build HTML text with
    them; the dispatch, the pagination and the titles read that text only
    through [getStrippedTitleFromHtml], so the two are kept abstract, [None]
    standing for a thrown exception. *)
Record Env := {
  (* textContent of the first <title> of the parsed document, if there is one *)
  titleText : option string -> option string;
  (* textContent of the <span class='mw-title'> built around a title *)
  spanText : string -> string;
  (* injectHeader; throws when there is no article detail or no target *)
  injectHeader : string -> string -> option ArticleDetail -> option string;
  (* renderMCSArticle; throws e.g. when json.lead is missing *)
  renderMCSArticle : Json -> string -> ArticleDetail -> option string
}.

(** [getStrippedTitleFromHtml] of [util/misc.ts]. *)
Definition getStrippedTitleFromHtml (env : Env) (html : option string) : string :=
  match titleText env html with
  | Some t => t
  | None => ""
  end.

(** [renderDesktopArticle]; the result is [undefined] when no branch applies. *)
Definition renderDesktopArticle (env : Env) (json : Json) (articleId : string)
  (articleDetail : option ArticleDetail) (isMainPage : bool)
  : Completion (option string) :=
  match visualeditor json with
  | Some content =>
      if isMainPage then Return (Some content)
      else h ← ofOption (injectHeader env content articleId articleDetail);
           Return (Some h)
  | None =>
      if match contentmodel json with
         | Some m => String.eqb m "wikitext"
         | None => false
         end
         || match htmlBody json with
            | Some (Some b) => Js.truthy b
            | _ => false
            end
      then match htmlBody json with
           | Some body => Return body
           | None => Throw
           end
      else match parseText json with
           | Some t => Return (Some t)
           | None => if error json then Return (Some "") else Return None
           end
  end.

Definition subCategoriesOrEmpty (d : ArticleDetail) : list PageInfo :=
  match subCategories d with Some l => l | None => [] end.

(** [Math.max(Math.ceil(n / 200), 1)] *)
Definition numberOfPagesToSplitInto (n : nat) : nat :=
  Nat.max ((n + 199) / 200) 1.

(** [list.slice(a, b)] *)
Definition slice {A} (a b : nat) (l : list A) : list A :=
  take (b - a) (drop a l).

(** The id of shard [i]: [articleId + (i === 0 ? '' : `__${i}`)]. *)
Definition shardId (articleId : string) (i : nat) : string :=
  articleId +:+ match i with O => "" | _ => "__" +:+ pretty i end.

(** The detail stored for shard [i] out of [n]: [Object.assign] over the
    original detail. *)
Definition shardDetail (articleId : string) (d : ArticleDetail) (n i : nat)
  : ArticleDetail :=
  {| info := info d;
     subCategories := Some (slice (i * 200) ((i + 1) * 200) (subCategoriesOrEmpty d));
     categories := categories d;
     pages := pages d;
     nextArticleId :=
       if Nat.ltb (i + 1) n then Some (articleId +:+ "__" +:+ pretty (i + 1)) else None;
     prevArticleId :=
       match i with
       | O => None
       | 1%nat => Some articleId
       | S i' => Some (articleId +:+ "__" +:+ pretty i')
       end |}.

(** The display title of shard [i] on the mobile path. *)
Definition mobileDisplayTitle (env : Env) (json : Json) (articleId : string)
  (html : option string) (i : nat) : string :=
  let strippedTitle := getStrippedTitleFromHtml env html in
  let strippedTitle :=
    if Js.truthy strippedTitle then strippedTitle
    else spanText env match lead json with
                      | Some l => displaytitle l
                      | None => articleId
                      end in
  Js.orElse strippedTitle (Js.replaceAllChar "_" " " articleId)
  +:+ match i with O => "" | _ => "/" +:+ pretty i end.

(** The body of the pagination loop, for the [k] shards from index [i] on. *)
Fixpoint renderShards (env : Env) (json : Json) (articleId : string)
  (d : ArticleDetail) (n : nat) (k i : nat)
  (store : gmap string ArticleDetail) (result : list RenderedArticle)
  : Completion (list RenderedArticle * gmap string ArticleDetail) :=
  match k with
  | O => Return (result, store)
  | S k' =>
      let _articleId := shardId articleId i in
      let _articleDetail := shardDetail articleId d n i in
      let store' :=
        if Nat.ltb 200 (length (subCategoriesOrEmpty d))
        then <[_articleId := _articleDetail]> store
        else store in
      h ← ofOption (renderMCSArticle env json _articleId _articleDetail);
      renderShards env json articleId d n k' (S i) store'
        (result ++ [{| articleId := _articleId;
                       displayTitle := mobileDisplayTitle env json articleId (Some h) i;
                       html := Some h |}])
  end.

(** [renderArticle] *)
Definition renderArticle (env : Env) (json : Json) (articleId mainPage : string)
  (restApiAvailable : bool) (store : gmap string ArticleDetail)
  : Completion (list RenderedArticle * gmap string ArticleDetail) :=
  let articleDetail := store !! articleId in
  let isMainPage := String.eqb articleId mainPage in
  let isRendered := isMainPage || negb restApiAvailable in
  if isRendered then
    h ← renderDesktopArticle env json articleId articleDetail isMainPage;
    let strippedTitle := getStrippedTitleFromHtml env h in
    Return ([{| articleId := articleId;
                displayTitle :=
                  Js.orElse strippedTitle (Js.replaceFirst "_" " " articleId);
                html := h |}], store)
  else
    d ← ofOption articleDetail;
    let n := numberOfPagesToSplitInto (length (subCategoriesOrEmpty d)) in
    renderShards env json articleId d n n 0 store [].

(** Example inputs: a category with 201 sub-categories whose rendered
    document has the title [Cats]. *)
Definition exampleEnv : Env :=
  {| titleText := fun _ => Some "Cats";
     spanText := fun t => t;
     injectHeader := fun content _ _ => Some content;
     renderMCSArticle := fun _ _ _ => Some "<title>Cats</title>" |}.

Definition exampleJson : Json :=
  {| visualeditor := None; contentmodel := None; htmlBody := None;
     parseText := None; error := false;
     lead := Some {| displaytitle := "Cats" |} |}.

Definition exampleDetail : ArticleDetail :=
  {| info := {| pageid := 7; ns := 14; title := "Category:Cats" |};
     subCategories :=
       Some (replicate 201 {| pageid := 8; ns := 14; title := "Category:Felines" |});
     categories := None; pages := None;
     nextArticleId := None; prevArticleId := None |}.

Definition exampleStore : gmap string ArticleDetail :=
  {[ "Category:Cats" := exampleDetail ]}.

End Renderer.

(** ** File store upgrades: [getSizeFromUrl] and the insertion loop of
    [saveArticles] *)

Module Files.

(** A number produced by [Number(text)] on a run of digits and dots: either
    [NaN] or the decimal [mantissa / 10^scale]. *)
Inductive JsNumber :=
| NaN
| Num (mantissa : N) (scale : nat).

(** [a < b] on possibly undefined numbers: false as soon as one side is
    [undefined] or [NaN]. *)
Definition jsLt (a b : option JsNumber) : bool :=
  match a, b with
  | Some (Num m s), Some (Num m' s') =>
      N.ltb (m * 10 ^ N.of_nat s') (m' * 10 ^ N.of_nat s)
  | _, _ => false
  end.

Definition isDigit (c : ascii) : bool :=
  let n := nat_of_ascii c in Nat.leb 48 n && Nat.leb n 57.

Definition isDigitOrDot (c : ascii) : bool :=
  isDigit c || Ascii.eqb c ".".

(** The longest prefix whose characters satisfy [p], and the rest. *)
Fixpoint span (p : ascii -> bool) (s : string) : string * string :=
  match s with
  | EmptyString => (EmptyString, EmptyString)
  | String c s' =>
      if p c then let '(a, b) := span p s' in (String c a, b)
      else (EmptyString, s)
  end.

(** The value of a run of decimal digits, most significant first. *)
Fixpoint digitsValue (acc : N) (s : string) : N :=
  match s with
  | EmptyString => acc
  | String c s' => digitsValue (10 * acc + N.of_nat (nat_of_ascii c - 48)) s'
  end.

(** [Number(text)] for [text] matching [[0-9.]+]. *)
Definition numberOfDigitsAndDots (text : string) : JsNumber :=
  let '(int, rest) := span isDigit text in
  match rest with
  | EmptyString => Num (digitsValue 0 int) 0
  | String _ frac =>                      (* the character is a dot *)
      let '(fr, rest') := span isDigit frac in
      match rest', (int +:+ fr) with
      | EmptyString, String _ _ =>
          Num (digitsValue 0 (int +:+ fr)) (String.length fr)
      | _, _ => NaN
      end
  end.

(** A match of [/[\/-]([0-9]+)px-/] anchored at the head of [s]: the group. *)
Definition widthMatchHere (s : string) : option string :=
  match s with
  | String c s' =>
      if Ascii.eqb c "/" || Ascii.eqb c "-" then
        let '(ds, rest) := span isDigit s' in
        if Js.truthy ds && String.prefix "px-" rest then Some ds else None
      else None
  | EmptyString => None
  end.

(** A match of [/-([0-9.]+)x\./] anchored at the head of [s]: the group. *)
Definition multMatchHere (s : string) : option string :=
  match s with
  | String c s' =>
      if Ascii.eqb c "-" then
        let '(ds, rest) := span isDigitOrDot s' in
        if Js.truthy ds && String.prefix "x." rest then Some ds else None
      else None
  | EmptyString => None
  end.

(** [url.match(re)]: the leftmost anchored match. *)
Fixpoint search (here : string -> option string) (s : string) : option string :=
  match here s with
  | Some g => Some g
  | None => match s with
            | EmptyString => None
            | String _ s' => search here s'
            end
  end.

Record Size := {
  mult : option JsNumber;
  width : option JsNumber
}.

(** [getSizeFromUrl] of [util/misc.ts]. *)
Definition getSizeFromUrl (url : string) : Size :=
  match search widthMatchHere url with
  | Some w => {| mult := None; width := Some (numberOfDigitsAndDots w) |}
  | None =>
      match search multMatchHere url with
      | Some m => {| mult := Some (numberOfDigitsAndDots m); width := None |}
      | None => {| mult := None; width := None |}
      end
  end.

(** A value of the [filesToDownload] store. *)
Record FileTask := {
  url : string;
  namespace : string;
  size : Size
}.

(** A media dependency of an article: the source URL and its archive path. *)
Record Dep := {
  depUrl : string;
  depPath : string
}.

(** [currentDepIsHigherRes] *)
Definition currentDepIsHigherRes (existingVal : option FileTask) (sz : Size) : bool :=
  match existingVal with
  | None => true
  | Some e => jsLt (width (size e)) (width sz) || jsLt (mult (size e)) (mult sz)
  end.

(** One turn of the loop over [mediaDependencies] in [saveArticles]. *)
Definition insertDep (store : gmap string FileTask) (dep : Dep)
  : gmap string FileTask :=
  let sz := getSizeFromUrl (depUrl dep) in
  if currentDepIsHigherRes (store !! depPath dep) sz
  then <[depPath dep := {| url := depUrl dep; namespace := "I"; size := sz |}]> store
  else store.

(** The whole loop. *)
Definition insertDeps (store : gmap string FileTask) (deps : list Dep)
  : gmap string FileTask :=
  fold_left insertDep deps store.

(** The larger of two possibly undefined numbers, [undefined] and [NaN]
    counting as absent: what "the maximum over all insertions" means. *)
Definition maxNum (a b : option JsNumber) : option JsNumber :=
  match a, b with
  | Some (Num m s), Some (Num m' s') =>
      if N.ltb (m * 10 ^ N.of_nat s') (m' * 10 ^ N.of_nat s) then b else a
  | Some (Num _ _), _ => a
  | _, Some (Num _ _) => b
  | _, _ => None
  end.

Definition maxOver (f : Size -> option JsNumber) (deps : list Dep) : option JsNumber :=
  fold_right (fun d acc => maxNum (f (getSizeFromUrl (depUrl d))) acc) None deps.

(** A defined number, as opposed to [undefined] and [NaN]. *)
Definition isNum (o : option JsNumber) : Prop :=
  exists m s, o = Some (Num m s).

(** The value stored for a dependency. *)
Definition task (d : Dep) : FileTask :=
  {| url := depUrl d; namespace := "I"; size := getSizeFromUrl (depUrl d) |}.

(** Example inputs: an original file and one of its thumbnails, stored under
    the same archive path. *)
Definition original : Dep :=
  {| depUrl := "https://upload.wikimedia.org/wikipedia/commons/c/cd/London.jpg";
     depPath := "London.jpg" |}.

Definition thumb275 : Dep :=
  {| depUrl := "https://upload.wikimedia.org/wikipedia/commons/thumb/c/cd/London.jpg/275px-London.jpg";
     depPath := "London.jpg" |}.

Definition thumb120 : Dep :=
  {| depUrl := "https://upload.wikimedia.org/wikipedia/commons/thumb/c/cd/London.jpg/120px-London.jpg";
     depPath := "London.jpg" |}.

End Files.

(** ** The URL prefix cache of the Downloader: [serializeUrl] and
    [deserializeUrl] *)

Module UrlCache.

(** [urlPartCache]: cache id to URL prefix.  The ids are the decimal
    numerals [1], [2], ... given out by [serializeUrl], so the enumeration
    order of the object is the insertion order of the list. *)
Definition Cache := list (string * string).

Definition lookup (cache : Cache) (cacheId : string) : option string :=
  snd <$> List.find (fun e => String.eqb (fst e) cacheId) cache.

(** [Object.entries(cache).find(([cacheId, value]) => value === part)] *)
Definition findByValue (cache : Cache) (part : string) : option (string * string) :=
  List.find (fun e => String.eqb (snd e) part) cache.

(** [serializeUrl].  [urlPath] is [urlParser.parse(url).path] of the node
    runtime ([null] is [None]). *)
Definition serializeUrl (urlPath : string -> option string) (cache : Cache)
  (url : string) : string * Cache :=
  let path := urlPath url in
  let pathStr := match path with Some p => p | None => "null" end in
  let cacheablePart := Js.replaceFirst pathStr "" url in
  match findByValue cache cacheablePart with
  | None =>
      let cacheId := pretty (length cache + 1)%nat in
      ("_" +:+ cacheId +:+ "_" +:+ pathStr, cache ++ [(cacheId, cacheablePart)])
  | Some (cacheId, _) =>
      ("_" +:+ cacheId +:+ "_" +:+ pathStr, cache)
  end.

(** [deserializeUrl] *)
Definition deserializeUrl (cache : Cache) (url : string) : string :=
  if negb (Js.startsWith "_" url) then url
  else
    match Js.split "_" url with
    | _ :: cacheId :: pathParts =>
        Js.show (lookup cache cacheId) +:+ Js.join "_" pathParts
    | _ => Js.show (lookup cache "undefined")
    end.

(** A fragment of the node URL parser, enough for absolute [http(s)] URLs
    without credentials: [path] is what follows the authority up to the
    fragment, with [/] supplied when the URL has none. *)
Fixpoint upToHash (s : string) : string :=
  match s with
  | EmptyString => EmptyString
  | String c s' => if Ascii.eqb c "#" then EmptyString else String c (upToHash s')
  end.

Fixpoint afterAuthority (s : string) : string :=
  match s with
  | EmptyString => EmptyString
  | String c s' =>
      if Ascii.eqb c "/" || Ascii.eqb c "?" || Ascii.eqb c "#" then s
      else afterAuthority s'
  end.

Definition httpPath (url : string) : option string :=
  let rest :=
    if String.prefix "https://" url then Some (Js.dropStr 8 url)
    else if String.prefix "http://" url then Some (Js.dropStr 7 url)
    else None in
  match rest with
  | None => None
  | Some r =>
      let p := upToHash (afterAuthority r) in
      Some (if String.prefix "/" p then p else "/" +:+ p)
  end.

(** Whether a character occurs in a string. *)
Fixpoint hasChar (c : ascii) (s : string) : bool :=
  match s with
  | EmptyString => false
  | String a s' => Ascii.eqb a c || hasChar c s'
  end.

(** Example input: the cache after the prefix of the wiki has been
    registered. *)
Definition exampleCache : Cache := [("1", "https://en.wikipedia.org")].

End UrlCache.

(** ** Image download through the blob cache: [downloadImage] *)

Module BlobCache.

Import Downloader.

(** What [s3.downloadBlob] resolves to when the object exists: the body, the
    [Metadata.etag] and the remaining fields of the reply. *)
Record BlobObject := {
  Body : string;
  MetadataEtag : option string;
  otherFields : list (string * string)
}.

(** A response that passed [validateStatus] (2xx or 304). *)
Record Response := {
  status : Z;
  headersEtag : option string;      (* resp.headers.etag *)
  headers : list (string * string);
  data : string
}.

(** The [responseHeaders] given to the caller: the cached object without its
    body, or the upstream headers. *)
Inductive ResponseHeaders :=
| CachedHeaders (etag : option string) (fields : list (string * string))
| UpstreamHeaders (etag : option string) (fields : list (string * string)).

Record Downloaded := {
  responseHeaders : ResponseHeaders;
  content : string
}.

(** The collaborators: [stripHttpFromUrl] (its regular expression is a
    constant of [util/const]), the replacement [etag.replace(WEAK_ETAG_REGEX,
    '')] (same), and [getCompressedBody] (image optimisation, may throw). *)
Record Env := {
  stripHttpFromUrl : string -> string;
  weakEtagReplace : string -> string;
  getCompressedBody : Response -> option string
}.

(** [removeEtagWeakPrefix]: [etag && etag.replace(WEAK_ETAG_REGEX, '')] *)
Definition removeEtagWeakPrefix (env : Env) (etag : option string) : option string :=
  match etag with
  | None => None
  | Some e => if Js.truthy e then Some (weakEtagReplace env e) else Some e
  end.

Definition truthyOpt (o : option string) : bool :=
  match o with Some s => Js.truthy s | None => false end.

(** The requests and calls that [downloadImage] makes, in order. *)
Inductive Effect :=
| DownloadBlob (key : string)
| Get (url : string) (ifNoneMatch : option string)
| UploadBlob (key : string) (body : string) (etag : string)
| Handler (r : Handled Downloaded).

(** The state [downloadImage] works on: the Downloader's counters and the
    [If-None-Match] entry of the shared [arrayBufferRequestOptions.headers]. *)
Record State := {
  counters : Downloader.State;
  ifNoneMatch : option string
}.

Definition fail (st : State) (e : AxiosError) : State * list Effect :=
  let '(c, h) := errHandler (A := Downloaded) (counters st) e in
  ({| counters := c; ifNoneMatch := ifNoneMatch st |}, [Handler h]).

(** The error of a [TypeError] or of a failed optimisation: no [code], no
    [response]. *)
Definition plainError : AxiosError := {| code := None; responseStatus := None |}.

(** [if (imageResp?.Metadata?.etag) headers['If-None-Match'] = ...]: the
    entry is written into the options object shared by all requests. *)
Definition withCachedEtag (env : Env) (st : State) (imageResp : option BlobObject)
  : State :=
  let cachedEtag := imageResp ≫= MetadataEtag in
  if truthyOpt cachedEtag
  then {| counters := counters st;
          ifNoneMatch := removeEtagWeakPrefix env cachedEtag |}
  else st.

(** [downloadImage].  [blob] is what [s3.downloadBlob] settles to for the
    key; [upstream] is what [axios.get] settles to, given the
    [If-None-Match] header sent. *)
Definition downloadImage (env : Env) (st : State) (url : string)
  (blob : string -> Settled (option BlobObject))
  (upstream : string -> option string -> Settled Response)
  : State * list Effect :=
  let key := stripHttpFromUrl env url in
  match blob key with
  | Rejected e =>
      let '(st', effs) := fail st e in (st', DownloadBlob key :: effs)
  | Resolved imageResp =>
      let st1 := withCachedEtag env st imageResp in
      let sent := [DownloadBlob key; Get url (ifNoneMatch st1)] in
      match upstream url (ifNoneMatch st1) with
      | Rejected e => let '(st', effs) := fail st1 e in (st', sent ++ effs)
      | Resolved resp =>
          if Z.eqb (status resp) 304 then
            match imageResp with
            | Some o =>
                (st1, sent ++ [Handler (Value
                   {| responseHeaders := CachedHeaders (MetadataEtag o) (otherFields o);
                      content := Body o |})])
            | None =>
                let '(st', effs) := fail st1 plainError in (st', sent ++ effs)
            end
          else
            let etag := removeEtagWeakPrefix env (headersEtag resp) in
            let uploads :=
              match etag with
              | Some e => if Js.truthy e then [UploadBlob key (data resp) e] else []
              | None => []
              end in
            match getCompressedBody env resp with
            | Some c =>
                (st1, sent ++ uploads ++ [Handler (Value
                   {| responseHeaders := UpstreamHeaders (headersEtag resp) (headers resp);
                      content := c |})])
            | None =>
                let '(st', effs) := fail st1 plainError in
                (st', sent ++ uploads ++ effs)
            end
      end
  end.

Definition isUpload (e : Effect) : bool :=
  match e with UploadBlob _ _ _ => true | _ => false end.

(** The weak-validator prefix of RFC 7232, which the name of
    [removeEtagWeakPrefix] refers to: a leading [W/] is dropped. *)
Definition dropWeakPrefix (etag : string) : string :=
  if String.prefix "W/" etag then Js.dropStr 2 etag else etag.

(** Example inputs. *)
Definition exampleEnv : Env :=
  {| stripHttpFromUrl := fun u =>
       if String.prefix "https://" u then Js.dropStr 8 u
       else if String.prefix "http://" u then Js.dropStr 7 u else u;
     weakEtagReplace := dropWeakPrefix;
     getCompressedBody := fun r => Some (data r) |}.

Definition exampleState : State :=
  {| counters := Downloader.constructor 1; ifNoneMatch := None |}.

Definition logoUrl : string :=
  "https://bm.wikipedia.org/static/images/project-logos/bmwiki-2x.png".

Definition logoKey : string :=
  "bm.wikipedia.org/static/images/project-logos/bmwiki-2x.png".

Definition copyUrl : string :=
  "https://bm.wikipedia.org/static/images/project-logos/bmwiki-copy.png".

Definition weakResponse : Response :=
  {| status := 200; headersEtag := Some "W/abc";
     headers := [("content-type", "image/png")]; data := "PNG" |}.

Definition notModified : Response :=
  {| status := 304; headersEtag := Some "abc"; headers := []; data := "" |}.

Definition cachedLogo : BlobObject :=
  {| Body := "PNG"; MetadataEtag := Some "abc";
     otherFields := [("ContentType", "image/png")] |}.

End BlobCache.

(** ** A document tree and the clean-up passes of [applyOtherTreatments] *)

Module Dom.

(** A node of the parsed document.  Tags are kept in lower case
    ([localName]); [nodeName]/[tagName] is its upper-case form.  A document
    is given by its root element, [<html>]; the elements the passes look
    for lie below it. *)
#[warnings="-register-all"]
Inductive Node :=
| Element (tag : string) (attrs : list (string * string)) (children : list Node)
| Text (data : string).

Definition tagOf (n : Node) : option string :=
  match n with Element t _ _ => Some t | Text _ => None end.

Definition childrenOf (n : Node) : list Node :=
  match n with Element _ _ cs => cs | Text _ => [] end.

Definition isElement (n : Node) : bool :=
  match n with Element _ _ _ => true | Text _ => false end.

(** A node is named by its path from the root: the child indexes. *)
Abbreviation Path := (list nat).

(** The node reached from the root by a path. *)
Fixpoint nodeAt (p : Path) (n : Node) : option Node :=
  match p with
  | [] => Some n
  | i :: p' => childrenOf n !! i ≫= nodeAt p'
  end.

(** The descendant elements with a tag, in document order. *)
Fixpoint getElementsByTagName (tag : string) (n : Node) : list Path :=
  match n with
  | Text _ => []
  | Element _ _ cs =>
      (fix go (i : nat) (cs : list Node) : list Path :=
         match cs with
         | [] => []
         | c :: cs' =>
             match c with
             | Element t _ _ => if String.eqb t tag then [[i]] else []
             | Text _ => []
             end
             ++ map (cons i) (getElementsByTagName tag c)
             ++ go (S i) cs'
         end) O cs
  end.

(** The document in the course of a pass.  A pass keeps the references to
    the nodes it got from the document, so the nodes keep the names they
    have in the document [doc] the pass started from, and [deleted] holds
    the nodes that [DU.deleteNode] has detached from their parent since.  A
    node is out of the document when it or one of its ancestors has been
    detached. *)
Definition removed (deleted : list Path) (p : Path) : bool :=
  existsb (fun q => bool_decide (q `prefix_of` p)) deleted.

(** [parsoidDoc.getElementsByTagName(tag)]: the elements with the tag that
    are in the document when the list is built.  The list of a document is
    built when its length is first read, at the head of the loop, and is
    not refreshed while the loop deletes: the loop runs over a snapshot. *)
Definition elementsByTagName (tag : string) (doc : Node) (deleted : list Path)
  : list Path :=
  filter (fun p => removed deleted p = false) (getElementsByTagName tag doc).

(** [node.parentElement]: none for the root and for a detached node. *)
Definition parentElement (deleted : list Path) (p : Path) (doc : Node)
  : option Node :=
  if bool_decide (p ∈ deleted) then None
  else match reverse p with
       | [] => None
       | _ :: rparent => nodeAt (reverse rparent) doc
       end.

(** The siblings that follow a node under its parent as parsed, with their
    paths. *)
Definition siblingsAfter (p : Path) (doc : Node) : list (Path * Node) :=
  match reverse p with
  | [] => []
  | i :: rparent =>
      let parentPath := reverse rparent in
      match nodeAt parentPath doc with
      | None => []
      | Some parent =>
          drop (S i) (imap (fun j c => (parentPath ++ [j], c)) (childrenOf parent))
      end
  end.

(** [DU.nextElementSibling]: the first element among the following siblings
    that are still under the parent. *)
Definition nextElementSibling (deleted : list Path) (p : Path) (doc : Node)
  : option (Path * Node) :=
  if bool_decide (p ∈ deleted) then None
  else List.find (fun s => isElement s.2 && negb (bool_decide (s.1 ∈ deleted)))
                 (siblingsAfter p doc).

(** The test on the tag of the next element:
    [length > 1 && tag[0] === 'h' && !isNaN(tag[1]) && tag[1] <= level]. *)
Definition isHeadingUpTo (level : nat) (tag : string) : bool :=
  match tag with
  | String c0 (String c1 _) =>
      Ascii.eqb c0 "h" && Files.isDigit c1
      && Nat.leb (nat_of_ascii c1 - 48) level
  | _ => false
  end.

(** The test that makes the pass delete a heading: no element is left
    among its following siblings, or the next one is a heading of the same
    or a higher rank. *)
Definition followedByNothingOrHeading (level : nat) (doc : Node)
  (deleted : list Path) (p : Path) : bool :=
  match nextElementSibling deleted p doc with
  | None => true
  | Some (_, next) => isHeadingUpTo level (default "" (tagOf next))
  end.

(** The body of the inner loop for the heading [p]; [DU.deleteNode] detaches
    the node. *)
Definition treatHeading (level : nat) (doc : Node) (deleted : list Path)
  (p : Path) : Completion (list Path) :=
  let nextElementNode := nextElementSibling deleted p doc in
  parent ← ofOption (parentElement deleted p doc);
  let isSummary := bool_decide (tagOf parent = Some "summary") in
  if isSummary then Return deleted
  else match nextElementNode with
       | None => Return (p :: deleted)
       | Some (_, next) =>
           if isHeadingUpTo level (default "" (tagOf next))
           then Return (p :: deleted)
           else Return deleted
       end.

(** [for (let i = 0; i < paragraphNodes.length; i += 1)] over the
    snapshot. *)
Fixpoint headingLoop (level : nat) (doc : Node) (paragraphNodes : list Path)
  (deleted : list Path) : Completion (list Path) :=
  match paragraphNodes with
  | [] => Return deleted
  | p :: rest =>
      deleted' ← treatHeading level doc deleted p;
      headingLoop level doc rest deleted'
  end.

(** [for (let level = 5; level > 0; level--)] *)
Fixpoint levelLoop (level : nat) (doc : Node) (deleted : list Path)
  : Completion (list Path) :=
  match level with
  | O => Return deleted
  | S level' =>
      let paragraphNodes := elementsByTagName ("h" +:+ pretty level) doc deleted in
      deleted' ← headingLoop level doc paragraphNodes deleted;
      levelLoop level' doc deleted'
  end.

(** The document that is left: [n], found at path [here], without the
    detached nodes. *)
Fixpoint prune (deleted : list Path) (here : Path) (n : Node) : Node :=
  match n with
  | Text _ => n
  | Element t a cs =>
      Element t a
        ((fix go (i : nat) (cs : list Node) : list Node :=
            match cs with
            | [] => []
            | c :: cs' =>
                if bool_decide (here ++ [i] ∈ deleted) then go (S i) cs'
                else prune deleted (here ++ [i]) c :: go (S i) cs'
            end) O cs)
  end.

(** The "remove empty paragraphs" step of [applyOtherTreatments]. *)
Definition removeEmptyParagraphs (keepEmptyParagraphs : bool) (doc : Node)
  : Completion Node :=
  if keepEmptyParagraphs then Return doc
  else deleted ← levelLoop 5 doc []; Return (prune deleted [] doc).

(** The body of [nodesToDelete.forEach] for an entry [{ tag, filter }]: the
    loop over the snapshot of the elements with the tag, deleting [nodes[i]]
    when there is no filter or the filter accepts the node as it is then. *)
Fixpoint deleteLoop (f : option (Node -> bool)) (doc : Node) (nodes : list Path)
  (deleted : list Path) : list Path :=
  match nodes with
  | [] => deleted
  | p :: rest =>
      let accepted :=
        match f with
        | None => true
        | Some f => from_option (fun n => f (prune deleted p n)) false (nodeAt p doc)
        end in
      deleteLoop f doc rest (if accepted then p :: deleted else deleted)
  end.

Definition deleteByTag (tag : string) (f : option (Node -> bool)) (doc : Node)
  (deleted : list Path) : list Path :=
  deleteLoop f doc (elementsByTagName tag doc deleted) deleted.

(** The number of elements below a node. *)
Fixpoint countElements (n : Node) : nat :=
  match n with
  | Text _ => O
  | Element _ _ cs =>
      (fix go (cs : list Node) : nat :=
         match cs with
         | [] => O
         | c :: cs' =>
             match c with Element _ _ _ => 1 | Text _ => 0 end
             + countElements c + go cs'
         end)%nat cs
  end.

(** Document order on paths: an ancestor comes before its descendants, a
    node before its following siblings and what they contain. *)
Fixpoint before (p q : Path) : Prop :=
  match p, q with
  | [], _ :: _ => True
  | i :: p', j :: q' => i < j \/ (i = j /\ before p' q')
  | _, _ => False
  end.

(** A heading of rank [level] that the clean-up is to delete, read in the
    document as parsed: its parent is not [<summary>] and it is followed by
    no element, or its next element sibling is a heading of the same or a
    higher rank. *)
Definition emptyHeading (level : nat) (doc : Node) (p : Path) : Prop :=
  (exists a cs, nodeAt p doc = Some (Element ("h" +:+ pretty level) a cs))
  /\ (exists parent, parentElement [] p doc = Some parent
                     /\ tagOf parent <> Some "summary")
  /\ (nextElementSibling [] p doc = None
      \/ exists q k a' cs',
           1 <= k <= level
           /\ nextElementSibling [] p doc
              = Some (q, Element ("h" +:+ pretty k) a' cs')).

(** A node that the clean-up may detach: a heading of rank [level] whose
    parent is not [<summary>] and that, when some of the nodes in [deleted]
    were gone, had no element left after it or was followed by a heading of
    the same or a higher rank. *)
Definition detachable (level : nat) (doc : Node) (deleted : list Path)
  (q : Path) : Prop :=
  (exists a cs, nodeAt q doc = Some (Element ("h" +:+ pretty level) a cs))
  /\ exists parent d1,
       parentElement [] q doc = Some parent
       /\ tagOf parent <> Some "summary"
       /\ (forall x, x ∈ d1 -> x ∈ deleted)
       /\ followedByNothingOrHeading level doc d1 q = true.

(** The nodes detached so far are headings of the ranks below [level]
    (the levels already done). *)
Definition onlyAbove (level : nat) (doc : Node) (d : list Path) : Prop :=
  forall q, q ∈ d ->
    exists m a cs, level < m <= 5
                   /\ nodeAt q doc = Some (Element ("h" +:+ pretty m) a cs).

(** Example inputs: [<h3>A</h3><h3>B</h3>] as the whole body; a head with
    two [<link>] elements. *)
Definition twoHeadings : Node :=
  Element "html" []
    [Element "head" [] [];
     Element "body" []
       [Element "h3" [] [Text "A"]; Element "h3" [] [Text "B"]]].

Definition twoLinks : Node :=
  Element "html" []
    [Element "head" [] [Element "link" [("rel", "stylesheet")] [];
                        Element "link" [("rel", "icon")] []];
     Element "body" [] [Element "p" [] [Text "London"]]].

End Dom.

(** ** Media treatment: [treatVideo], [treatImage], [treatMedias] *)

Module Media.

(** A [<source>] child of a video, with the attributes the code reads. *)
Record SourceEl := {
  src : option string;
  dataFileWidth : option string;
  dataFileHeight : option string;
  dataWidth : option string;
  dataHeight : option string
}.

(** A [<video>] element: its attributes and its [SOURCE] children. *)
Record VideoEl := {
  poster : option string;
  height : option string;
  controls : option string;
  resource : option string;
  sources : list SourceEl
}.

(** The [<a>] element that is the parent of an image. *)
Record LinkEl := {
  href : option string;
  hasParent : bool
}.

(** An [<img>] element: its attributes and, when its parent is an [<a>],
    that link. *)
Record ImgEl := {
  imgClass : option string;
  imgTypeof : option string;
  imgSrc : option string;
  imgLink : option LinkEl
}.

Record Dump := {
  nopic : bool;
  novid : bool;
  nodet : bool
}.

(** The collaborators: the host of [mw.webUrl], [getFullUrl] and
    [getMediaBase] ([None] when they throw), [Array.prototype.sort] (whose
    order for a comparator that never answers 0 is left to the engine),
    [mw.extractPageTitleFromHref] and [isMirrored]; and the numbers of the
    language: the conversion of a string to a number (with its signs,
    exponents, blanks, hexadecimal forms and [NaN]), the number of a
    literal, the product and the comparison [<] (false on [NaN]). *)
Record Env := {
  webUrlHost : string;
  getFullUrl : string -> option string -> option string;
  getMediaBase : string -> bool -> option string;
  sortBy : (SourceEl -> SourceEl -> bool) -> list SourceEl -> list SourceEl;
  extractPageTitleFromHref : string -> option string;
  isMirrored : string -> bool;
  num : Type;
  numOfString : string -> num;
  numOfZ : Z -> num;
  numMul : num -> num -> num;
  numLt : num -> num -> bool
}.

(** [Number(a || b || 0)] *)
Definition numberOfFirst (env : Env) (a b : option string) : num env :=
  match a, b with
  | Some s, _ => if Js.truthy s then numOfString env s
                 else match b with
                      | Some t => if Js.truthy t then numOfString env t
                                  else numOfZ env 0
                      | None => numOfZ env 0
                      end
  | None, Some t => if Js.truthy t then numOfString env t else numOfZ env 0
  | None, None => numOfZ env 0
  end.

(** [widthXHeightSorter]: [true] stands for [1], [false] for [-1]. *)
Definition widthXHeightSorter (env : Env) (a b : SourceEl) : bool :=
  let aWidth := numberOfFirst env (dataFileWidth a) (dataWidth a) in
  let aHeight := numberOfFirst env (dataFileHeight a) (dataHeight a) in
  let bWidth := numberOfFirst env (dataFileWidth b) (dataWidth b) in
  let bHeight := numberOfFirst env (dataFileHeight b) (dataHeight b) in
  let aVal := numMul env aWidth aHeight in
  let bVal := numMul env bWidth bHeight in
  numLt env bVal aVal.

(** [getRelativeFilePath] of [util/misc.ts]. *)
Definition getRelativeFilePath (parentArticleId fileBase resourceNamespace : string)
  : string :=
  let slashesInUrl := (length (Js.split "/" parentArticleId) - 1)%nat in
  let upStr := Js.repeatStr "../" (slashesInUrl + 1) in
  upStr +:+ resourceNamespace +:+ "/" +:+ fileBase.

(** What became of a video element. *)
Inductive VideoOutcome :=
| VideoDeleted
| VideoKept (v : VideoEl).

(** [srcCache.hasOwnProperty(url)] then [srcCache[url] = true] and
    [mediaDependencies.push(url)]. *)
Definition pushOnce (srcCache : gset string) (deps : list string) (u : string)
  : gset string * list string :=
  if bool_decide (u ∈ srcCache) then (srcCache, deps)
  else ({[u]} ∪ srcCache, deps ++ [u]).

(** [height < 40] on the attribute text: the text is converted to a number
    and compared. *)
Definition heightBelow40 (env : Env) (h : string) : bool :=
  numLt env (numOfString env h) (numOfZ env 40).

(** [treatVideo].  The result is the cache, what the function returned
    ([None] for the bare [return]) and the state of the element. *)
Definition treatVideo (env : Env) (dump : Dump) (srcCache : gset string)
  (articleId : string) (videoEl : VideoEl)
  : Completion (gset string * option (list string) * VideoOutcome) :=
  let posterUrl := poster videoEl in
  videoPosterUrl ← ofOption (getFullUrl env (webUrlHost env) posterUrl);
  posterBase ← ofOption (getMediaBase env videoPosterUrl true);
  let newVideoPosterUrl := getRelativeFilePath articleId posterBase "I" in
  let videoSources := sources videoEl in
  let height' :=
    match height videoEl with
    | Some h => if Js.truthy h && heightBelow40 env h then Some "40" else Some h
    | None => None
    end in
  if nopic dump || novid dump || nodet dump then
    Return (srcCache, Some [], VideoDeleted)
  else
    let poster' :=
      if BlobCache.truthyOpt posterUrl then Some newVideoPosterUrl else posterUrl in
    let '(srcCache1, deps1) := pushOnce srcCache [] videoPosterUrl in
    let videoSources := sortBy env (widthXHeightSorter env) videoSources in
    match videoSources with
    | [] => Throw                       (* sourceEl is undefined *)
    | sourceEl :: _ =>
        sourceUrl ← ofOption (getFullUrl env (webUrlHost env) (src sourceEl));
        fileBase ← ofOption (getMediaBase env sourceUrl true);
        if negb (Js.truthy fileBase) then
          Return (srcCache1, None,
                  VideoKept {| poster := poster'; height := height';
                               controls := Some "40"; resource := None;
                               sources := [] |})
        else
          let newUrl := getRelativeFilePath articleId fileBase "I" in
          let '(srcCache2, deps2) := pushOnce srcCache1 deps1 sourceUrl in
          Return (srcCache2, Some deps2,
                  VideoKept {| poster := poster'; height := height';
                               controls := Some "40"; resource := None;
                               sources := [{| src := Some newUrl;
                                              dataFileWidth := dataFileWidth sourceEl;
                                              dataFileHeight := dataFileHeight sourceEl;
                                              dataWidth := dataWidth sourceEl;
                                              dataHeight := dataHeight sourceEl |}] |})
    end.

(** [text.search(word) >= 0] for a word without special characters. *)
Fixpoint contains (word text : string) : bool :=
  String.prefix word text
  || match text with
     | EmptyString => false
     | String _ text' => contains word text'
     end.

(** What became of an image element. *)
Record ImgOutcome := {
  imgDeleted : bool;
  imgUnwrapped : bool;
  imgNewSrc : option string
}.

(** [treatImage] *)
Definition treatImage (env : Env) (dump : Dump) (srcCache : gset string)
  (articleId : string) (img : ImgEl)
  : Completion (gset string * list string * ImgOutcome) :=
  let imageNodeClass := default "" (imgClass img) in
  if (negb (nopic dump)
      || contains "mwe-math-fallback-image-inline" imageNodeClass
      || bool_decide (imgTypeof img = Some "mw:Extension/math"))
     && BlobCache.truthyOpt (imgSrc img)
     && negb (String.prefix "./Special:FilePath/" (default "" (imgSrc img)))
  then
    let '(unwrapped, detached) :=
      match imgLink img with
      | None => (false, false)
      | Some linkNode =>
          let title := extractPageTitleFromHref env (default "" (href linkNode)) in
          let keepLink :=
            match title with
            | Some t => Js.truthy t && isMirrored env t
            | None => false
            end in
          if keepLink then (false, false)
          else if hasParent linkNode then (true, false) else (false, true)
      end in
    src' ← ofOption (getFullUrl env (webUrlHost env) (imgSrc img));
    let newSrc :=
      (fun base => Js.repeatStr "../" (length (Js.split "/" articleId) - 1 + 1)
                   +:+ "I" +:+ "/" +:+ base) <$> getMediaBase env src' true in
    match newSrc with
    | Some new =>
        let '(srcCache', deps) := pushOnce srcCache [] src' in
        Return (srcCache', deps,
                {| imgDeleted := detached; imgUnwrapped := unwrapped;
                   imgNewSrc := Some new |})
    | None =>
        Return (srcCache, [],
                {| imgDeleted := true; imgUnwrapped := unwrapped; imgNewSrc := None |})
    end
  else
    Return (srcCache, [],
            {| imgDeleted := true; imgUnwrapped := false; imgNewSrc := None |}).

(** The loop over the videos in [treatMedias]; reading
    [ret.mediaDependencies] throws when [treatVideo] returned nothing. *)
Fixpoint treatVideos (env : Env) (dump : Dump) (articleId : string)
  (videos : list VideoEl) (srcCache : gset string) (deps : list string)
  : Completion (gset string * list string * list VideoOutcome) :=
  match videos with
  | [] => Return (srcCache, deps, [])
  | videoEl :: rest =>
      '(srcCache', ret, out) ← treatVideo env dump srcCache articleId videoEl;
      ds ← ofOption ret;
      '(srcCache'', deps', outs) ←
        treatVideos env dump articleId rest srcCache' (deps ++ ds);
      Return (srcCache'', deps', out :: outs)
  end.

(** The loop over the images in [treatMedias]. *)
Fixpoint treatImages (env : Env) (dump : Dump) (articleId : string)
  (imgs : list ImgEl) (srcCache : gset string) (deps : list string)
  : Completion (gset string * list string * list ImgOutcome) :=
  match imgs with
  | [] => Return (srcCache, deps, [])
  | imgEl :: rest =>
      '(srcCache', ds, out) ← treatImage env dump srcCache articleId imgEl;
      '(srcCache'', deps', outs) ←
        treatImages env dump articleId rest srcCache' (deps ++ ds);
      Return (srcCache'', deps', out :: outs)
  end.

(** [treatMedias] on the snapshots of the [<video>] and [<img>] elements of
    the document, with one fresh [srcCache] for both loops.  The frame pass
    that follows pushes no dependency. *)
Definition treatMedias (env : Env) (dump : Dump) (articleId : string)
  (videos : list VideoEl) (imgs : list ImgEl)
  : Completion (list string * list VideoOutcome * list ImgOutcome) :=
  '(srcCache, deps, vouts) ← treatVideos env dump articleId videos ∅ [];
  '(_, deps', iouts) ← treatImages env dump articleId imgs srcCache deps;
  Return (deps', vouts, iouts).

(** The dependencies [new] emitted while the cache grew from [cache] to
    [cache']: they are pairwise distinct, were not in the cache before and
    are in it afterwards. *)
Definition Emitted (cache cache' : gset string) (new : list string) : Prop :=
  cache ⊆ cache' /\ NoDup new /\ (forall u, u ∈ new -> (u ∉ cache) /\ (u ∈ cache')).

(** Example inputs: a wiki whose media URLs are already absolute, with the
    whole numbers as numbers, read from plain decimal numerals. *)
Definition exampleEnv : Env :=
  {| webUrlHost := "en.wikipedia.org";
     getFullUrl := fun _ u => u;
     getMediaBase := fun u _ => Some "London.jpg";
     sortBy := fun _ l => l;
     extractPageTitleFromHref := fun _ => None;
     isMirrored := fun _ => false;
     num := Z;
     numOfString := fun s => Z.of_N (Files.digitsValue 0 s);
     numOfZ := fun z => z;
     numMul := Z.mul;
     numLt := Z.ltb |}.

Definition exampleDump : Dump := {| nopic := false; novid := false; nodet := false |}.

Definition emptyVideo : VideoEl :=
  {| poster := None; height := None; controls := None; resource := None;
     sources := [] |}.

Definition londonImg : ImgEl :=
  {| imgClass := None; imgTypeof := None;
     imgSrc := Some "https://upload.wikimedia.org/wikipedia/commons/thumb/c/cd/London.jpg/275px-London.jpg";
     imgLink := None |}.

Definition londonVideo : VideoEl :=
  {| poster := Some "https://upload.wikimedia.org/wikipedia/commons/thumb/c/cd/London.jpg/275px-London.jpg";
     height := Some "30"; controls := None; resource := None;
     sources := [{| src := Some "https://upload.wikimedia.org/wikipedia/commons/c/cd/London.webm";
                    dataFileWidth := Some "640"; dataFileHeight := Some "480";
                    dataWidth := None; dataHeight := None |}] |}.

End Media.

(** ** Requests with their slot: [claimRequest] followed by [getJSON] *)

Module Requests.

Import Downloader.

(** [getJSON] from its first line: the slot is claimed, then the call is
    made.  [None] stands for a caller that keeps polling for a slot. *)
Definition getJSONWithClaim {A} (st : State) (net : list (Settled A))
  : option (State * CallEnd A * nat * list (Settled A)) :=
  st' ← claimRequest st; Some (getJSON st' net).

(** Successive JSON requests, each with its own network outcomes. *)
Fixpoint getJSONs {A} (st : State) (nets : list (list (Settled A))) : option State :=
  match nets with
  | [] => Some st
  | net :: nets' => r ← getJSONWithClaim st net; getJSONs r.1.1.1 nets'
  end.

(** [maxActiveRequests] after [n] responses with status 429. *)
Definition lowered (n : nat) (st : State) : State :=
  Nat.iter n (fun s => setMax s (newMaxActiveRequests (maxActiveRequests s))) st.

End Requests.

(** ** The shape of [urlPartCache] *)

Module UrlCacheShape.

Import UrlCache.

(** What [serializeUrl] maintains: the ids are the numerals [1] to [n] in
    order, and no prefix is registered twice. *)
Definition wellFormed (cache : Cache) : Prop :=
  cache.*1 = pretty <$> seq 1 (length cache) /\ NoDup cache.*2.

End UrlCacheShape.

(** ** More example inputs for the renderer *)

Module RendererExamples.

Import Renderer.

(** A document without [<title>], and a visual-editor response. *)
Definition untitledEnv : Env :=
  {| titleText := fun _ => None;
     spanText := fun t => t;
     injectHeader := fun content _ _ => Some content;
     renderMCSArticle := fun _ _ _ => Some "<p>Cats</p>" |}.

Definition visualEditorJson : Json :=
  {| visualeditor := Some "<p>Cats</p>"; contentmodel := None; htmlBody := None;
     parseText := None; error := false; lead := None |}.

End RendererExamples.

(** ** The images that [treatImage] keeps *)

Module MediaShape.

Import Media.

(** The test at the head of [treatImage]: pictures are allowed or the image
    is a formula, the [src] is not empty, and it does not start with
    [./Special:FilePath/]. *)
Definition imageKept (dump : Dump) (img : ImgEl) : bool :=
  (negb (nopic dump)
   || contains "mwe-math-fallback-image-inline" (default "" (imgClass img))
   || bool_decide (imgTypeof img = Some "mw:Extension/math"))
  && BlobCache.truthyOpt (imgSrc img)
  && negb (String.prefix "./Special:FilePath/" (default "" (imgSrc img))).

(** Where an emitted URL comes from: the poster or the first sorted source of
    a video treated outside the strip modes, or the [src] of a kept image. *)
Definition fromVideo (env : Env) (dump : Dump) (v : VideoEl) (u : string) : Prop :=
  nopic dump || novid dump || nodet dump = false
  /\ (getFullUrl env (webUrlHost env) (poster v) = Some u
      \/ exists s rest,
           sortBy env (widthXHeightSorter env) (sources v) = s :: rest
           /\ getFullUrl env (webUrlHost env) (src s) = Some u).

Definition fromImage (env : Env) (dump : Dump) (img : ImgEl) (u : string) : Prop :=
  imageKept dump img = true
  /\ getFullUrl env (webUrlHost env) (imgSrc img) = Some u.

Definition filePathImg : ImgEl :=
  {| imgClass := None; imgTypeof := None;
     imgSrc := Some "./Special:FilePath/London.jpg"; imgLink := None |}.

End MediaShape.

(** ** Downloading the files ([downloadFiles] of [util/saveArticles.ts]) *)

Module Download.

Import Files.










(** Example: two files, the second of which is never served. *)
Definition exampleStore : gmap string FileTask :=
  {[ "London.jpg" := task {| depUrl := "https://upload.wikimedia.org/London.jpg";
                             depPath := "London.jpg" |};
     "Paris.jpg" := task {| depUrl := "https://upload.wikimedia.org/Paris.jpg";
                            depPath := "Paris.jpg" |} ]}.



End Download.

(** * Properties *)

(** ** Downloader: rate adaptation *)

Module DownloaderFacts.

Import Downloader.

Lemma ceil09_spec (m : Z) :
  (9 * m <= 10 * ceil09 m < 9 * m + 10)%Z.
Proof. unfold ceil09. Z.to_euclidean_division_equations. lia. Qed.

Lemma newMaxActiveRequests_bounds (m : Z) :
  (1 <= m)%Z -> (1 <= newMaxActiveRequests m <= m)%Z.
Proof.
  intros H. pose proof (ceil09_spec m). unfold newMaxActiveRequests. lia.
Qed.

Lemma step_max_cases (st : State) (ev : Event) :
  maxActiveRequests (step st ev) =
    if is429 ev then newMaxActiveRequests (maxActiveRequests st)
    else maxActiveRequests st.
Proof.
  destruct ev as [| |e|e|]; simpl; unfold claimRequest;
    repeat case_match; simplify_eq; reflexivity.
Qed.

Lemma step_max_bounds (st : State) (ev : Event) :
  (1 <= maxActiveRequests st)%Z ->
  (1 <= maxActiveRequests (step st ev) <= maxActiveRequests st)%Z.
Proof.
  intros H. rewrite step_max_cases.
  destruct (is429 ev); [apply newMaxActiveRequests_bounds; exact H | lia].
Qed.

Lemma run_snoc (speed : Z) (evs : list Event) (ev : Event) :
  run speed (evs ++ [ev]) = step (run speed evs) ev.
Proof. unfold run. rewrite fold_left_app. reflexivity. Qed.

Lemma run_max_ge_1 (speed : Z) (evs : list Event) :
  (1 <= speed)%Z -> (1 <= maxActiveRequests (run speed evs))%Z.
Proof.
  intros Hs. induction evs as [|ev evs IH] using rev_ind.
  - unfold run. simpl. lia.
  - rewrite run_snoc. apply step_max_bounds. exact IH.
Qed.

Lemma backoffCall_unfold {A N} (fn : State -> N -> State * Handled A * nat * N)
  (backoffs : nat) (st : State) (net : N) :
  backoffCall fn backoffs st net =
  let '(st', h, _, net') := fn st net in
  match h with
  | Value a => (st', Completed a, 1%nat, net')
  | NotCalled => (st', Pending, 1%nat, net')
  | Error e =>
      if retryIf e then
        match backoffs with
        | O => (st', Failed e, 1%nat, net')
        | S b =>
            let '(st'', r, n, net'') := backoffCall fn b st' net' in
            (st'', r, S n, net'')
        end
      else (st', Failed e, 1%nat, net')
  end.
Proof. destruct backoffs; reflexivity. Qed.

(** The request paths act on the counters as sequences of events: every
    state they reach is a state of [run]. *)
Lemma getJSONCb_events {A} (st : State) (net : list (Settled A)) :
  exists evs, (getJSONCb st net).1.1.1 = fold_left step evs st.
Proof.
  revert st. induction net as [|[a|e] net IH]; intros st.
  - exists []. reflexivity.
  - exists []. reflexivity.
  - simpl. destruct (hasStatus e 429) eqn:H429.
    + destruct (IH (setMax st (newMaxActiveRequests (maxActiveRequests st))))
        as [evs Hevs].
      exists (EvJsonRejected e :: evs). simpl. rewrite H429.
      destruct (getJSONCb _ net) as [[[st' h] n] rest]. exact Hevs.
    + exists []. destruct (hasStatus e 404); reflexivity.
Qed.

Lemma getContentCb_events {A B} (compress : A -> option B) (st : State)
  (net : list (Settled A)) :
  exists evs, (getContentCb compress st net).1.1.1 = fold_left step evs st.
Proof.
  destruct net as [|[a|e] net]; simpl.
  - exists []. reflexivity.
  - destruct (compress a).
    + exists []. reflexivity.
    + exists [EvErrHandler {| code := None; responseStatus := None |}]. reflexivity.
  - exists [EvErrHandler e]. reflexivity.
Qed.

Lemma backoffCall_events {A N} (fn : State -> N -> State * Handled A * nat * N)
  (backoffs : nat) (st : State) (net : N) :
  (forall st net, exists evs, (fn st net).1.1.1 = fold_left step evs st) ->
  exists evs, (backoffCall fn backoffs st net).1.1.1 = fold_left step evs st.
Proof.
  intros Hfn. revert st net. induction backoffs as [|b IH]; intros st net.
  - destruct (Hfn st net) as [evs Hevs]. exists evs. simpl.
    destruct (fn st net) as [[[st' h] n] net']. simpl in Hevs.
    destruct h as [a|e|]; [exact Hevs| |exact Hevs].
    destruct (retryIf e); exact Hevs.
  - destruct (Hfn st net) as [evs Hevs]. rewrite backoffCall_unfold.
    destruct (fn st net) as [[[st' h] n] net']. simpl in Hevs.
    destruct h as [a|e|]; [exists evs; exact Hevs| |exists evs; exact Hevs].
    destruct (retryIf e); [|exists evs; exact Hevs].
    destruct (IH st' net') as [evs' Hevs'].
    exists (evs ++ evs'). rewrite fold_left_app, <- Hevs.
    destruct (backoffCall fn b st' net') as [[[st'' r] n'] net'']. exact Hevs'.
Qed.

Lemma getJSON_events {A} (st : State) (net : list (Settled A)) :
  exists evs, (getJSON st net).1.1.1 = fold_left step evs st.
Proof.
  unfold getJSON.
  destruct (backoffCall_events (A := A) getJSONCb failAfter st net getJSONCb_events)
    as [evs Hevs].
  destruct (backoffCall getJSONCb failAfter st net) as [[[st' r] n] net'].
  simpl in Hevs. destruct r; simpl.
  - exists (evs ++ [EvRelease]). rewrite fold_left_app, <- Hevs. reflexivity.
  - exists (evs ++ [EvRelease]). rewrite fold_left_app, <- Hevs. reflexivity.
  - exists evs. exact Hevs.
Qed.

Lemma downloadContent_events {A B} (compress : A -> option B) (st : State)
  (net : list (Settled A)) :
  exists evs, (downloadContent compress st net).1.1.1 = fold_left step evs st.
Proof.
  unfold downloadContent.
  destruct (backoffCall_events (getContentCb compress) failAfter st net
              (getContentCb_events compress))
    as [evs Hevs].
  destruct (backoffCall (getContentCb compress) failAfter st net)
    as [[[st' r] n] net'].
  simpl in Hevs. destruct r; simpl.
  - exists (evs ++ [EvRelease]). rewrite fold_left_app, <- Hevs. reflexivity.
  - exists (evs ++ [EvRelease]). rewrite fold_left_app, <- Hevs. reflexivity.
  - exists evs. exact Hevs.
Qed.

(** ** Downloader: retries *)

(** C2 (the code at the failing input).  A rejection of a JSON request whose
    status is neither 429 nor 404 (a 5xx, a timeout) satisfies the retry
    predicate, yet [getJSONCb] never calls the handler: the request is issued
    once, the back-off call stays pending, and the slot is not released. *)
Theorem getJSON_unhandled_rejection {A} (st : State) (e : AxiosError)
  (net : list (Settled A)) :
  hasStatus e 429 = false ->
  hasStatus e 404 = false ->
  retryIf e = true
  /\ getJSON st (Rejected e :: net) = (st, Pending, 1%nat, net).
Proof.
  intros H429 H404. split.
  - unfold retryIf. rewrite H404. apply orb_true_r.
  - unfold getJSON. rewrite backoffCall_unfold. simpl.
    rewrite H429, H404. reflexivity.
Qed.

Lemma getJSON_unhandled_rejection_witness :
  let timeout := {| code := Some "ECONNABORTED"; responseStatus := None |} in
  retryIf timeout = true
  /\ getJSON (constructor 1%Z) [Rejected timeout; Resolved tt]
     = (constructor 1%Z, Pending, 1%nat, [Resolved tt]).
Proof.
  apply (getJSON_unhandled_rejection (constructor 1%Z)
           {| code := Some "ECONNABORTED"; responseStatus := None |}
           [Resolved tt]); reflexivity.
Defined.

(** The sibling path: [downloadContent] hands every rejection to the
    back-off call, which retries it when [retryIf] holds. *)
Lemma downloadContent_retries {A B} (compress : A -> option B) (st : State)
  (e : AxiosError) (a : A) (b : B) :
  hasStatus e 429 = false ->
  retryIf e = true ->
  compress a = Some b ->
  downloadContent compress st [Rejected e; Resolved a]
  = (releaseRequest st, Completed b, 2%nat, []).
Proof.
  intros H429 Hr Hc. unfold downloadContent, failAfter.
  rewrite backoffCall_unfold. simpl. unfold errHandler. rewrite H429, Hr.
  simpl. rewrite Hc. reflexivity.
Qed.

(** The back-off call invokes the function at most once more than the
    number of back-offs allowed: [failAfter = 7] gives one call and at most
    seven retries. *)
Lemma backoffCall_bound {A N} (fn : State -> N -> State * Handled A * nat * N)
  (backoffs : nat) (st : State) (net : N) :
  (backoffCall fn backoffs st net).1.2 <= S backoffs.
Proof.
  revert st net. induction backoffs as [|b IH]; intros st net;
    rewrite backoffCall_unfold; destruct (fn st net) as [[[st' h] n] net'].
  - destruct h as [a|e|]; simpl; [lia | destruct (retryIf e); simpl; lia | lia].
  - destruct h as [a|e|]; simpl; [lia | | lia].
    destruct (retryIf e); simpl; [|lia].
    specialize (IH st' net').
    destruct (backoffCall fn b st' net') as [[[st'' r] n'] net'']. simpl in *. lia.
Qed.

Lemma downloadContent_gives_up :
  let e := {| code := None; responseStatus := Some 500%Z |} in
  downloadContent (B := unit) Some (constructor 1%Z) (replicate 9 (Rejected e))
  = (releaseRequest (constructor 1%Z), Failed e, 8, [Rejected e]).
Proof. reflexivity. Qed.

(** A 404 is surfaced at once by both paths. *)
Lemma getJSON_404 {A} (st : State) (e : AxiosError) (net : list (Settled A)) :
  code e = None ->
  hasStatus e 404 = true ->
  getJSON st (Rejected e :: net) = (releaseRequest st, Failed e, 1%nat, net).
Proof.
  intros Hc H404. unfold getJSON. rewrite backoffCall_unfold. simpl.
  assert (hasStatus e 429 = false) as ->.
  { unfold hasStatus in *. destruct (responseStatus e); [|discriminate]. lia. }
  rewrite H404. unfold retryIf. rewrite Hc, H404. reflexivity.
Qed.

Lemma downloadContent_404 {A B} (compress : A -> option B) (st : State)
  (e : AxiosError) (net : list (Settled A)) :
  code e = None ->
  hasStatus e 404 = true ->
  downloadContent compress st (Rejected e :: net)
  = (releaseRequest st, Failed e, 1%nat, net).
Proof.
  intros Hc H404. unfold downloadContent. rewrite backoffCall_unfold. simpl.
  unfold errHandler.
  assert (hasStatus e 429 = false) as ->.
  { unfold hasStatus in *. destruct (responseStatus e); [|discriminate]. lia. }
  unfold retryIf. rewrite Hc, H404. reflexivity.
Qed.

(** A 429 on the JSON path is re-issued by [getJSONCb] itself, outside the
    back-off call and without its bound. *)
Lemma getJSON_429_reissued :
  let e := {| code := None; responseStatus := Some 429%Z |} in
  getJSON (constructor 1%Z) (replicate 9 (Rejected e) ++ [Resolved tt])
  = (releaseRequest (setMax (constructor 1%Z) 9%Z), Completed tt, 1%nat, []).
Proof. reflexivity. Qed.

End DownloaderFacts.

(** ** The limit on parallel requests *)

Module LimitFacts.

Import Downloader DownloaderNum.

Local Open Scope Q_scope.

Lemma Qceiling_09 (m : Z) :
  Qceiling (inject_Z m * (9 # 10)) = Downloader.ceil09 m.
Proof.
  unfold Qceiling, Qfloor, Qopp, Qmult, inject_Z, Downloader.ceil09. simpl.
  Z.to_euclidean_division_equations. lia.
Qed.

(** On whole numbers this model is the whole-number model. *)
Lemma newMaxActiveRequests_whole (m : Z) :
  newMaxActiveRequests (inject_Z m)
  = inject_Z (Downloader.newMaxActiveRequests m).
Proof.
  unfold newMaxActiveRequests, Downloader.newMaxActiveRequests.
  rewrite Qceiling_09. reflexivity.
Qed.

Lemma constructor_whole (s : Z) :
  constructor (inject_Z s) = ofWhole (Downloader.constructor s).
Proof.
  unfold constructor, ofWhole, Downloader.constructor. simpl.
  unfold Qmult, inject_Z. simpl. reflexivity.
Qed.

Lemma claimRequest_whole (st : Downloader.State) :
  claimRequest (ofWhole st) = ofWhole <$> Downloader.claimRequest st.
Proof.
  unfold claimRequest, Downloader.claimRequest, ofWhole, Qle_bool. simpl.
  rewrite !Z.mul_1_r.
  destruct (Z.leb_spec (Downloader.maxActiveRequests st)
                       (Downloader.activeRequests st)),
           (Z.ltb_spec (Downloader.activeRequests st)
                       (Downloader.maxActiveRequests st));
    try lia; reflexivity.
Qed.

Lemma errHandler_whole {A} (st : Downloader.State) (e : AxiosError) :
  errHandler (A := A) (ofWhole st) e
  = (ofWhole (Downloader.errHandler (A := A) st e).1, Error e).
Proof.
  unfold errHandler, Downloader.errHandler. destruct (hasStatus e 429); simpl;
    [|reflexivity].
  unfold setMax, ofWhole. simpl. rewrite newMaxActiveRequests_whole. reflexivity.
Qed.

Lemma getJSONCb_whole {A} (st : Downloader.State) (net : list (Settled A)) :
  getJSONCb (ofWhole st) net
  = (ofWhole (Downloader.getJSONCb st net).1.1.1,
     (Downloader.getJSONCb st net).1.1.2,
     (Downloader.getJSONCb st net).1.2,
     (Downloader.getJSONCb st net).2).
Proof.
  revert st. induction net as [|[a|e] net IH]; intros st; [reflexivity..|].
  simpl. destruct (hasStatus e 429).
  - specialize (IH (Downloader.setMax st
                      (Downloader.newMaxActiveRequests
                         (Downloader.maxActiveRequests st)))).
    unfold ofWhole, setMax in *. simpl in *.
    rewrite newMaxActiveRequests_whole, IH.
    destruct (Downloader.getJSONCb _ net) as [[[st' h] n] rest]. reflexivity.
  - destruct (hasStatus e 404); reflexivity.
Qed.


(** A limit that is a whole number [m >= 1]. *)
Lemma newMaxActiveRequests_lowered (q : Q) (m : Z) :
  q == inject_Z m -> (1 <= m)%Z ->
  exists m', (1 <= m' <= m)%Z /\ newMaxActiveRequests q = inject_Z m'.
Proof.
  intros Hq Hm. exists (Downloader.newMaxActiveRequests m).
  split.
  - unfold Downloader.newMaxActiveRequests, Downloader.ceil09.
    Z.to_euclidean_division_equations. lia.
  - unfold newMaxActiveRequests. rewrite Hq, Qceiling_09. reflexivity.
Qed.

Lemma getJSONCb_lowered {A} (net : list (Settled A)) (st : State) (m : Z) :
  maxActiveRequests st == inject_Z m -> (1 <= m)%Z ->
  exists m', (1 <= m' <= m)%Z
    /\ maxActiveRequests (getJSONCb st net).1.1.1 == inject_Z m'
    /\ (m' <> m -> receives429 (OpGetJSONCb net) = true).
Proof.
  revert st m. induction net as [|[a|e] net IH]; intros st m Hst Hm.
  - exists m. split; [lia|]. split; [exact Hst | congruence].
  - exists m. split; [lia|]. split; [exact Hst | congruence].
  - simpl. destruct (hasStatus e 429) eqn:H429.
    + destruct (newMaxActiveRequests_lowered _ m Hst Hm) as (m1 & Hm1 & Hnew).
      destruct (IH (setMax st (newMaxActiveRequests (maxActiveRequests st))) m1)
        as (m' & Hm' & Hmax & _).
      { simpl. rewrite Hnew. reflexivity. }
      { lia. }
      exists m'. split; [lia|]. split; [|reflexivity].
      destruct (getJSONCb _ net) as [[[st' h] k] rest]. exact Hmax.
    + exists m. split; [lia|].
      split; [destruct (hasStatus e 404); exact Hst | congruence].
Qed.

Lemma apply_lowered {A} (op : Op A) (st : State) (m : Z) :
  maxActiveRequests st == inject_Z m -> (1 <= m)%Z ->
  exists m', (1 <= m' <= m)%Z
    /\ maxActiveRequests (apply st op) == inject_Z m'
    /\ (m' <> m -> receives429 op = true).
Proof.
  intros Hst Hm. destruct op as [| |e|net].
  - exists m. split; [lia|]. split; [|congruence].
    simpl. unfold claimRequest. destruct (negb _); exact Hst.
  - exists m. split; [lia|]. split; [exact Hst | congruence].
  - simpl. destruct (hasStatus e 429) eqn:H429.
    + destruct (newMaxActiveRequests_lowered _ m Hst Hm) as (m1 & Hm1 & Hnew).
      exists m1. split; [lia|]. split; [simpl; rewrite Hnew; reflexivity | auto].
    + exists m. split; [lia|]. split; [exact Hst | congruence].
  - apply getJSONCb_lowered; assumption.
Qed.

Lemma run_app {A} (speed : Q) (ops : list (Op A)) (op : Op A) :
  run speed (ops ++ [op]) = apply (run speed ops) op.
Proof. unfold run. rewrite fold_left_app. reflexivity. Qed.

Lemma run_whole {A} (speed : Q) (n : Z) (ops : list (Op A)) :
  speed * 10 == inject_Z n -> (1 <= n)%Z ->
  exists m, (1 <= m <= n)%Z /\ maxActiveRequests (run speed ops) == inject_Z m.
Proof.
  intros Hs Hn. induction ops as [|op ops IH] using rev_ind.
  - exists n. split; [lia | exact Hs].
  - destruct IH as (m & Hm & Hst). rewrite run_app.
    destruct (apply_lowered op (run speed ops) m Hst ltac:(lia))
      as (m' & Hm' & Hst' & _).
    exists m'. split; [lia | exact Hst'].
Qed.

(** C3 as stated fails when [speed * 10] is not a whole number: with
    [speed = 0.25] the limit starts at 2.5 and the first 429, through
    [errHandler] as through [getJSONCb], sets it to [max(ceil(2.25), 1) = 3],
    above what it was; and with [speed = 0.05] it starts at 0.5, below 1. *)
Lemma maxActiveRequests_raised_counterexample :
  let st := constructor (1 # 4) in
  maxActiveRequests st == 5 # 2
  /\ maxActiveRequests (errHandler (A := unit) st tooManyRequests).1 == 3
  /\ maxActiveRequests (getJSONCb st [Rejected tooManyRequests; Resolved tt]).1.1.1
     == 3
  /\ maxActiveRequests st < 3
  /\ maxActiveRequests (constructor (1 # 20)) < 1.
Proof. repeat split. Qed.

(** C3 (amended).  When [speed * 10] is a whole number [n >= 1]: the limit
    starts at [speed * 10]; in every state reached by claims, releases and
    calls of [errHandler] and [getJSONCb], the two places that assign it, it
    is at least 1; an operation never raises it and changes it only when it
    meets an HTTP 429; and on a 429 both [errHandler] and [getJSONCb] set it
    to [max(1, c)], with [c] the ceiling of 0.9 times the limit, [getJSONCb]
    going on from there with the rest of the responses. *)
Theorem maxActiveRequests_adaptation {A} (speed : Q) (n : Z)
  (ops : list (Op A)) (op : Op A) :
  speed * 10 == inject_Z n ->
  (1 <= n)%Z ->
  let st := run speed ops in
  let st' := apply st op in
  maxActiveRequests (run (A := A) speed []) = speed * 10
  /\ 1 <= maxActiveRequests st
  /\ maxActiveRequests st' <= maxActiveRequests st
  /\ (~ maxActiveRequests st' == maxActiveRequests st -> receives429 op = true)
  /\ (forall e, hasStatus e 429 = true ->
        exists c : Z,
          inject_Z c - 1 < (9 # 10) * maxActiveRequests st <= inject_Z c
          /\ (errHandler (A := A) st e).1 = setMax st (inject_Z (Z.max 1 c))
          /\ forall net : list (Settled A),
               (getJSONCb st (Rejected e :: net)).1.1.1
               = (getJSONCb (setMax st (inject_Z (Z.max 1 c))) net).1.1.1).
Proof.
  intros Hs Hn st st'. subst st st'.
  destruct (run_whole speed n ops Hs Hn) as (m & Hm & Hst).
  destruct (apply_lowered op (run speed ops) m Hst ltac:(lia))
    as (m' & Hm' & Hst' & H429).
  split; [reflexivity|].
  split; [rewrite Hst; change 1 with (inject_Z 1); rewrite <- Zle_Qle; lia|].
  split; [rewrite Hst, Hst', <- Zle_Qle; lia|].
  split.
  { intros Hne. apply H429. intros ->. apply Hne. rewrite Hst, Hst'. reflexivity. }
  intros e He.
  exists (Qceiling (maxActiveRequests (run speed ops) * (9 # 10))).
  split; [|split].
  - rewrite (Qmult_comm (9 # 10)). split.
    + pose proof (Qceiling_lt (maxActiveRequests (run speed ops) * (9 # 10))) as H.
      unfold Z.sub in H. rewrite inject_Z_plus, inject_Z_opp in H. exact H.
    + apply Qle_ceiling.
  - unfold errHandler. rewrite He. simpl. unfold newMaxActiveRequests.
    rewrite Z.max_comm. reflexivity.
  - intros net. simpl. rewrite He. unfold newMaxActiveRequests.
    rewrite Z.max_comm.
    destruct (getJSONCb _ net) as [[[st' h] k] rest]. reflexivity.
Qed.

Lemma maxActiveRequests_adaptation_witness :
  let ops := [OpErrHandler tooManyRequests;
              OpGetJSONCb [Rejected tooManyRequests; Resolved tt]] in
  (3 # 2) * 10 == inject_Z 15
  /\ 1 <= maxActiveRequests (run (3 # 2) ops)
  /\ maxActiveRequests (run (3 # 2) ops) == 13.
Proof.
  split; [reflexivity|]. split; [|reflexivity].
  exact (proj1 (proj2 (maxActiveRequests_adaptation (3 # 2) 15
           [OpErrHandler tooManyRequests;
            OpGetJSONCb [Rejected tooManyRequests; Resolved tt]]
           (OpErrHandler tooManyRequests) ltac:(reflexivity) ltac:(lia)))).
Defined.

End LimitFacts.

(** ** Renderer: pagination and display titles *)

Module RendererFacts.

Import Renderer.

Ltac unfold_bind :=
  unfold mbind, completion_bind, mret, completion_ret, ofOption in *.

Lemma shardId_inj (a : string) (i j : nat) : shardId a i = shardId a j -> i = j.
Proof.
  unfold shardId. intros H. apply (inj (String.app a)) in H.
  destruct i as [|i], j as [|j]; try reflexivity; try discriminate H.
  apply (inj (String.app "__")) in H. apply (inj pretty) in H. exact H.
Qed.

Lemma append_empty_r (a : string) : a +:+ "" = a.
Proof.
  induction a as [|c a IH]; [reflexivity|].
  change (String c (a +:+ "") = String c a). rewrite IH. reflexivity.
Qed.

Lemma shardId_0 (a : string) : shardId a 0 = a.
Proof. apply append_empty_r. Qed.

Lemma shardId_S (a : string) (i : nat) :
  shardId a (S i) = a +:+ "__" +:+ pretty (S i).
Proof. reflexivity. Qed.

(** What a completed run of the pagination loop has produced. *)
Lemma renderShards_inv (env : Env) (json : Json) (aid : string)
  (d : ArticleDetail) (n k i : nat) (store : gmap string ArticleDetail)
  (result out : list RenderedArticle) (store' : gmap string ArticleDetail) :
  renderShards env json aid d n k i store result = Return (out, store') ->
  exists res,
    out = result ++ res
    /\ length res = k
    /\ (forall j r, res !! j = Some r ->
          articleId r = shardId aid (i + j)
          /\ displayTitle r = mobileDisplayTitle env json aid (html r) (i + j)
          /\ is_Some (html r))
    /\ (if Nat.ltb 200 (length (subCategoriesOrEmpty d))
        then (forall j, j < k ->
                store' !! shardId aid (i + j) = Some (shardDetail aid d n (i + j)))
             /\ (forall key, (forall j, j < k -> key <> shardId aid (i + j)) ->
                   store' !! key = store !! key)
        else store' = store).
Proof.
  revert i store result. induction k as [|k IH]; intros i store result H.
  - simpl in H. injection H as <- <-. exists []. rewrite app_nil_r.
    split; [reflexivity|]. split; [reflexivity|]. split.
    + intros j r Hr. discriminate Hr.
    + destruct (Nat.ltb 200 _); [split; intros; [lia | reflexivity] | reflexivity].
  - simpl in H. unfold_bind.
    destruct (renderMCSArticle env json (shardId aid i) (shardDetail aid d n i))
      as [h|] eqn:Hh; [|discriminate H].
    apply IH in H as (res & -> & Hlen & Hres & Hstore).
    eexists (_ :: res). split; [rewrite <- app_assoc; reflexivity|].
    split; [simpl; lia|]. split.
    + intros [|j] r Hr.
      * injection Hr as <-. simpl. rewrite Nat.add_0_r. eauto.
      * simpl in Hr. replace (i + S j) with (S i + j) by lia. apply Hres, Hr.
    + destruct (Nat.ltb 200 (length (subCategoriesOrEmpty d))); [|exact Hstore].
      destruct Hstore as [Hin Hout]. split.
      * intros [|j] Hj.
        -- rewrite Nat.add_0_r. rewrite Hout.
           ++ apply lookup_insert_eq.
           ++ intros j' _ Heq. apply shardId_inj in Heq. lia.
        -- replace (i + S j) with (S i + j) by lia. apply Hin. lia.
      * intros key Hkey. rewrite Hout.
        -- apply lookup_insert_ne. specialize (Hkey 0 ltac:(lia)).
           rewrite Nat.add_0_r in Hkey. congruence.
        -- intros j Hj. specialize (Hkey (S j) ltac:(lia)).
           replace (i + S j) with (S i + j) in Hkey by lia. exact Hkey.
Qed.

(** The loop completes when the section templates do. *)
Lemma renderShards_total (env : Env) (json : Json) (aid : string)
  (d : ArticleDetail) (n k i : nat) (store : gmap string ArticleDetail)
  (result : list RenderedArticle) :
  (forall id d', is_Some (renderMCSArticle env json id d')) ->
  exists out store',
    renderShards env json aid d n k i store result = Return (out, store').
Proof.
  intros Htot. revert i store result.
  induction k as [|k IH]; intros i store result; simpl.
  - eauto.
  - unfold_bind.
    destruct (Htot (shardId aid i) (shardDetail aid d n i)) as [h ->].
    apply IH.
Qed.

Lemma numberOfPagesToSplitInto_spec (N : nat) :
  (200 < N ->
   200 * (numberOfPagesToSplitInto N - 1) < N <= 200 * numberOfPagesToSplitInto N)
  /\ (N <= 200 -> numberOfPagesToSplitInto N = 1).
Proof.
  unfold numberOfPagesToSplitInto.
  pose proof (Nat.div_mod_eq (N + 199) 200) as E.
  pose proof (Nat.mod_upper_bound (N + 199) 200 ltac:(lia)) as B.
  split; intros H; lia.
Qed.

Lemma mobile_path (aid mainPage : string) :
  aid <> mainPage -> String.eqb aid mainPage || negb true = false.
Proof.
  intros H. apply orb_false_iff. split; [|reflexivity].
  apply String.eqb_neq. exact H.
Qed.

(** C4. On the mobile path, a category with [N] sub-categories is rendered
    into [ceil(N/200)] shards when [N > 200] and into one shard otherwise
    (1 for 200, 2 for 201 and for 400, 3 for 401); shard 0 has the article
    id, shard [i > 0] the id followed by [__i]; when [N > 200] every shard is
    stored under its id with [prevArticleId]/[nextArticleId] naming the
    neighbouring shards, and nothing is stored otherwise. *)
Theorem category_pagination (env : Env) (json : Json) (aid mainPage : string)
  (store : gmap string ArticleDetail) (d : ArticleDetail) :
  store !! aid = Some d ->
  aid <> mainPage ->
  (forall id d', is_Some (renderMCSArticle env json id d')) ->
  let N := length (subCategoriesOrEmpty d) in
  exists result store',
    renderArticle env json aid mainPage true store = Return (result, store')
    /\ (200 < N -> 200 * (length result - 1) < N <= 200 * length result)
    /\ (N <= 200 -> length result = 1 /\ store' = store)
    /\ (N = 200 -> length result = 1) /\ (N = 201 -> length result = 2)
    /\ (N = 400 -> length result = 2) /\ (N = 401 -> length result = 3)
    /\ (forall i r, result !! i = Some r ->
          articleId r = match i with
                        | O => aid
                        | S _ => aid +:+ "__" +:+ pretty i
                        end)
    /\ (200 < N -> forall i, i < length result ->
          exists sd,
            store' !! shardId aid i = Some sd
            /\ prevArticleId sd = match i with
                                  | O => None
                                  | S i' => Some (shardId aid i')
                                  end
            /\ nextArticleId sd = (if Nat.ltb (i + 1) (length result)
                                   then Some (shardId aid (i + 1)) else None)
            /\ subCategories sd
               = Some (take 200 (drop (i * 200) (subCategoriesOrEmpty d)))).
Proof.
  intros Hd Hmain Htot N.
  unfold renderArticle. rewrite (mobile_path _ _ Hmain), Hd. unfold_bind.
  fold N. set (n := numberOfPagesToSplitInto N).
  destruct (renderShards_total env json aid d n n 0 store [] Htot)
    as (out & store' & Hrun).
  exists out, store'. split; [exact Hrun|].
  apply renderShards_inv in Hrun as (res & -> & Hlen & Hres & Hstore).
  fold N in Hstore. simpl app. rewrite Hlen.
  pose proof (numberOfPagesToSplitInto_spec N) as [Hbig Hsmall]. fold n in Hbig, Hsmall.
  split; [exact Hbig|]. split.
  { intros HN. split; [auto|].
    destruct (Nat.ltb_spec 200 N); [lia | exact Hstore]. }
  split; [intros ->; reflexivity|]. split; [intros E; subst n; rewrite E; reflexivity|].
  split; [intros E; subst n; rewrite E; reflexivity|].
  split; [intros E; subst n; rewrite E; reflexivity|].
  split.
  { intros i r Hr. apply Hres in Hr as (-> & _). simpl.
    destruct i; [apply shardId_0 | reflexivity]. }
  intros HN i Hi. destruct (Nat.ltb_spec 200 N); [|lia].
  destruct Hstore as [Hin _]. exists (shardDetail aid d n i).
  split; [apply (Hin i Hi)|]. split; [|split].
  - simpl. destruct i as [|[|i]]; [reflexivity| |reflexivity].
    rewrite shardId_0. reflexivity.
  - simpl. destruct (Nat.ltb (i + 1) n); [|reflexivity].
    replace (i + 1) with (S i) by lia. reflexivity.
  - simpl. unfold slice. do 3 f_equal. lia.
Qed.

Lemma category_pagination_witness :
  exists result store',
    renderArticle exampleEnv exampleJson "Category:Cats" "Main_Page" true exampleStore
    = Return (result, store')
    /\ length result = 2.
Proof.
  destruct (category_pagination exampleEnv exampleJson "Category:Cats" "Main_Page"
              exampleStore exampleDetail)
    as (result & store' & Hrun & _ & _ & _ & H201 & _).
  - reflexivity.
  - discriminate.
  - intros id d'. eexists. reflexivity.
  - exists result, store'. split; [exact Hrun|]. apply H201.
    reflexivity.
Defined.

(** C8 as stated fails: the second shard of a paginated category whose
    document has the title [Cats] gets the display title [Cats/1]. *)
Lemma display_title_counterexample :
  exists result store' r,
    renderArticle exampleEnv exampleJson "Category:Cats" "Main_Page" true exampleStore
    = Return (result, store')
    /\ result !! 1 = Some r
    /\ titleText exampleEnv (html r) = Some "Cats"
    /\ displayTitle r = "Cats/1"
    /\ displayTitle r <> "Cats".
Proof.
  destruct (renderShards_total exampleEnv exampleJson "Category:Cats" exampleDetail
              2 2 0 exampleStore [])
    as (out & store' & Hrun).
  { intros id d'. eexists. reflexivity. }
  pose proof Hrun as Hinv.
  apply renderShards_inv in Hinv as (res & -> & Hlen & Hres & _).
  destruct res as [|r0 [|r1 [|]]]; try discriminate Hlen.
  destruct (Hres 1 r1 eq_refl) as (_ & Ht & _).
  exists [r0; r1], store', r1.
  split; [exact Hrun|]. split; [reflexivity|]. split; [reflexivity|].
  assert (displayTitle r1 = "Cats/1") as E.
  { rewrite Ht. reflexivity. }
  split; [exact E|]. rewrite E. discriminate.
Qed.

(** C8, amended.  The display title of the [i]-th rendered article is [T]
    when [i = 0] and [T/i] when [i > 0] (only the mobile path renders more
    than one), where [T] is the text of the document's [<title>] element when
    that element is present and its text is not empty; otherwise, on the
    mobile path, the text of the lead's [displaytitle] (of the article id
    when the response has no lead) when that is not empty, and otherwise the
    article id with every underscore replaced by a space. *)
Theorem display_title (env : Env) (json : Json) (aid mainPage : string)
  (restApiAvailable : bool) (store store' : gmap string ArticleDetail)
  (result : list RenderedArticle) (i : nat) (r : RenderedArticle) :
  renderArticle env json aid mainPage restApiAvailable store = Return (result, store') ->
  result !! i = Some r ->
  let suffix := match i with O => "" | S _ => "/" +:+ pretty i end in
  match titleText env (html r) with
  | Some (String c t) => displayTitle r = String c t +:+ suffix
  | _ =>
      String.eqb aid mainPage = false -> restApiAvailable = true ->
      displayTitle r =
        Js.orElse (spanText env match lead json with
                                | Some l => displaytitle l
                                | None => aid
                                end)
                  (Js.replaceAllChar "_" " " aid)
        +:+ suffix
  end.
Proof.
  intros Hrun Hr suffix. unfold renderArticle in Hrun.
  destruct (String.eqb aid mainPage || negb restApiAvailable) eqn:Hpath.
  - unfold_bind.
    destruct (renderDesktopArticle env json aid (store !! aid) (String.eqb aid mainPage))
      as [|h]; [discriminate Hrun|].
    injection Hrun as <- <-. destruct i as [|i]; [|discriminate Hr].
    injection Hr as <-. subst suffix. simpl.
    unfold getStrippedTitleFromHtml.
    destruct (titleText env h) as [[|c t]|].
    + intros Hm Hrest. rewrite Hm, Hrest in Hpath. discriminate Hpath.
    + simpl. rewrite append_empty_r. reflexivity.
    + intros Hm Hrest. rewrite Hm, Hrest in Hpath. discriminate Hpath.
  - unfold_bind. destruct (store !! aid) as [d|]; [|discriminate Hrun].
    apply renderShards_inv in Hrun as (res & -> & _ & Hres & _).
    simpl in Hr. destruct (Hres i r Hr) as (_ & Ht & _).
    rewrite Ht. unfold mobileDisplayTitle, getStrippedTitleFromHtml. simpl.
    destruct (titleText env (html r)) as [[|c t]|]; simpl; auto.
Qed.

Lemma display_title_witness :
  exists result store' r,
    renderArticle exampleEnv exampleJson "Category:Cats" "Main_Page" true exampleStore
    = Return (result, store')
    /\ result !! 1 = Some r
    /\ displayTitle r = "Cats/1".
Proof.
  destruct (renderShards_total exampleEnv exampleJson "Category:Cats" exampleDetail
              2 2 0 exampleStore [])
    as (out & store' & Hrun).
  { intros id d'. eexists. reflexivity. }
  pose proof Hrun as Hinv.
  apply renderShards_inv in Hinv as (res & -> & Hlen & _).
  destruct res as [|r0 [|r1 [|]]]; try discriminate Hlen.
  exists [r0; r1], store', r1.
  split; [exact Hrun|]. split; [reflexivity|].
  exact (display_title exampleEnv exampleJson "Category:Cats" "Main_Page" true
           exampleStore store' [r0; r1] 1 r1 Hrun eq_refl).
Defined.

End RendererFacts.

(** ** File store: resolution-aware upgrade *)

Module FilesFacts.

Import Files.

Lemma jsLt_irrefl (a : option JsNumber) : jsLt a a = false.
Proof.
  destruct a as [[|m s]|]; simpl; try reflexivity. apply N.ltb_irrefl.
Qed.

Lemma jsLt_undefined_r (a : option JsNumber) : jsLt a None = false.
Proof. destruct a as [[|m s]|]; reflexivity. Qed.

Lemma pow10_pos (s : nat) : (0 < 10 ^ N.of_nat s)%N.
Proof. apply N.neq_0_lt_0, N.pow_nonzero. discriminate. Qed.

(** [c <= a < b] gives [c <= b]. *)
Lemma jsLt_chain (a b c : option JsNumber) :
  jsLt a b = true -> jsLt a c = false -> jsLt b c = false.
Proof.
  destruct a as [[|ma sa]|], b as [[|mb sb]|]; simpl; try discriminate.
  destruct c as [[|mc sc]|]; simpl; try reflexivity.
  intros Hab Hac. apply N.ltb_lt in Hab. apply N.ltb_ge in Hac.
  apply N.ltb_ge.
  pose proof (pow10_pos sa) as Pa. pose proof (pow10_pos sb) as Pb.
  pose proof (pow10_pos sc) as Pc.
  set (A := (10 ^ N.of_nat sa)%N) in *. set (B := (10 ^ N.of_nat sb)%N) in *.
  set (C := (10 ^ N.of_nat sc)%N) in *.
  apply (N.mul_le_mono_pos_r _ _ A Pa).
  apply N.le_trans with (ma * C * B)%N.
  - replace (mc * B * A)%N with (mc * A * B)%N by lia.
    apply N.mul_le_mono_r. exact Hac.
  - replace (ma * C * B)%N with (ma * B * C)%N by lia.
    replace (mb * C * A)%N with (mb * A * C)%N by lia.
    apply N.mul_le_mono_r. lia.
Qed.

Lemma insertDep_other (store : gmap string FileTask) (d : Dep) (key : string) :
  key <> depPath d -> insertDep store d !! key = store !! key.
Proof.
  intros Hne. unfold insertDep.
  destruct (currentDepIsHigherRes _ _); [|reflexivity].
  apply lookup_insert_ne. congruence.
Qed.

Lemma insertDep_fresh (store : gmap string FileTask) (d : Dep) :
  store !! depPath d = None -> insertDep store d !! depPath d = Some (task d).
Proof.
  intros Hnone. unfold insertDep. rewrite Hnone. simpl. apply lookup_insert_eq.
Qed.

Lemma insertDep_existing (store : gmap string FileTask) (d : Dep) (e : FileTask) :
  store !! depPath d = Some e ->
  insertDep store d !! depPath d =
    Some (if jsLt (width (size e)) (width (getSizeFromUrl (depUrl d)))
             || jsLt (mult (size e)) (mult (getSizeFromUrl (depUrl d)))
          then task d else e).
Proof.
  intros He. unfold insertDep. rewrite He. simpl.
  destruct (_ || _); [apply lookup_insert_eq | exact He].
Qed.

(** The invariant of the loop for one measure [f] (the width or the mult)
    when every insertion carries it and does not carry the other one [g]. *)
Lemma insertDeps_max (f g : Size -> option JsNumber) (path : string)
  (deps seen : list Dep) (store : gmap string FileTask) (t : FileTask) :
  (forall e sz, jsLt (width (size e)) (width sz) || jsLt (mult (size e)) (mult sz)
                = jsLt (f (size e)) (f sz) || jsLt (g (size e)) (g sz)) ->
  Forall (fun d => depPath d = path
                   /\ isNum (f (getSizeFromUrl (depUrl d)))
                   /\ g (getSizeFromUrl (depUrl d)) = None) deps ->
  store !! path = Some t ->
  (exists d, d ∈ seen /\ t = task d) ->
  (forall d, d ∈ seen -> jsLt (f (size t)) (f (getSizeFromUrl (depUrl d))) = false) ->
  exists t',
    insertDeps store deps !! path = Some t'
    /\ (exists d, d ∈ seen ++ deps /\ t' = task d)
    /\ (forall d, d ∈ seen ++ deps ->
          jsLt (f (size t')) (f (getSizeFromUrl (depUrl d))) = false).
Proof.
  intros Hcmp Hall. revert seen store t.
  induction Hall as [|d deps (Hp & Hnum & Hg) _ IH]; intros seen store t Ht Hin Hmax.
  - exists t. rewrite app_nil_r. auto.
  - simpl. subst path.
    pose proof (insertDep_existing store d t Ht) as Hstep.
    rewrite Hcmp, Hg, jsLt_undefined_r, orb_false_r in Hstep.
    destruct (jsLt (f (size t)) (f (getSizeFromUrl (depUrl d)))) eqn:Hlt.
    + destruct (IH (seen ++ [d]) (insertDep store d) (task d) Hstep)
        as (t' & Hl & Hd & Hm).
      * exists d. split; [apply elem_of_app; right; constructor | reflexivity].
      * intros d' [Hd'|Hd']%elem_of_app.
        -- simpl. eapply jsLt_chain; [exact Hlt | apply Hmax, Hd'].
        -- apply list_elem_of_singleton in Hd' as ->. apply jsLt_irrefl.
      * exists t'. rewrite <- app_assoc in Hd, Hm. auto.
    + destruct (IH (seen ++ [d]) (insertDep store d) t Hstep)
        as (t' & Hl & Hd & Hm).
      * destruct Hin as (d0 & Hd0 & Et). exists d0.
        split; [apply elem_of_app; left; exact Hd0 | exact Et].
      * intros d' [Hd'|Hd']%elem_of_app; [apply Hmax, Hd'|].
        apply list_elem_of_singleton in Hd' as ->. exact Hlt.
      * exists t'. rewrite <- app_assoc in Hd, Hm. auto.
Qed.

Lemma insertDeps_max_from_empty (f g : Size -> option JsNumber) (path : string)
  (deps : list Dep) (store : gmap string FileTask) :
  (forall e sz, jsLt (width (size e)) (width sz) || jsLt (mult (size e)) (mult sz)
                = jsLt (f (size e)) (f sz) || jsLt (g (size e)) (g sz)) ->
  deps <> [] ->
  Forall (fun d => depPath d = path
                   /\ isNum (f (getSizeFromUrl (depUrl d)))
                   /\ g (getSizeFromUrl (depUrl d)) = None) deps ->
  store !! path = None ->
  exists t,
    insertDeps store deps !! path = Some t
    /\ (exists d, d ∈ deps /\ t = task d)
    /\ (forall d, d ∈ deps ->
          jsLt (f (size t)) (f (getSizeFromUrl (depUrl d))) = false).
Proof.
  intros Hcmp Hne Hall Hnone. destruct deps as [|d deps]; [congruence|].
  inversion Hall as [|? ? (Hp & Hnum & Hg) Hall']; subst.
  simpl.
  destruct (insertDeps_max f g (depPath d) deps [d] (insertDep store d) (task d))
    as (t & Hl & Hd & Hm); auto.
  - apply insertDep_fresh, Hnone.
  - exists d. split; [set_solver | reflexivity].
  - intros d' Hd'. apply list_elem_of_singleton in Hd' as ->. apply jsLt_irrefl.
  - exists t. auto.
Qed.

Lemma getSizeFromUrl_one_measure (u : string) :
  (isNum (width (getSizeFromUrl u)) -> mult (getSizeFromUrl u) = None)
  /\ (isNum (mult (getSizeFromUrl u)) -> width (getSizeFromUrl u) = None).
Proof.
  unfold getSizeFromUrl.
  destruct (search widthMatchHere u); [|destruct (search multMatchHere u)];
    simpl; split; intros (m & sc & H); try reflexivity; discriminate H.
Qed.

(** C1 as stated fails: the same two insertions, an original file without
    size in its URL and its 275px thumbnail, leave an entry without width when
    the original comes first and an entry of width 275 when it comes last,
    while the maximum width over the insertions is 275 in both orders. *)
Lemma file_store_max_counterexample :
  (exists t, insertDeps ∅ [original; thumb275] !! "London.jpg" = Some t
             /\ width (size t) = None)
  /\ (exists t, insertDeps ∅ [thumb275; original] !! "London.jpg" = Some t
              /\ width (size t) = Some (Num 275 0))
  /\ maxOver width [original; thumb275] = Some (Num 275 0)
  /\ maxOver width [thumb275; original] = Some (Num 275 0).
Proof.
  split; [|split; [|split]].
  - eexists. split; [vm_compute; reflexivity | reflexivity].
  - eexists. split; [vm_compute; reflexivity | reflexivity].
  - vm_compute. reflexivity.
  - vm_compute. reflexivity.
Qed.

(** C1, amended.  An existing entry is replaced only when the new width is
    strictly greater than the stored width or the new mult strictly greater
    than the stored mult, a comparison with a missing value being false.
    For a sequence of insertions for one path that was absent from the store:
    when every insertion carries a width, the final entry is one of the
    insertions and no insertion has a greater width; likewise for the mult
    when every insertion carries a mult. *)
Theorem file_store_upgrade (path : string) (deps : list Dep)
  (store : gmap string FileTask) :
  deps <> [] ->
  Forall (fun d => depPath d = path) deps ->
  store !! path = None ->
  (forall (s : gmap string FileTask) d e,
      s !! depPath d = Some e ->
      insertDep s d !! depPath d <> Some e ->
      insertDep s d !! depPath d = Some (task d)
      /\ (jsLt (width (size e)) (width (getSizeFromUrl (depUrl d))) = true
          \/ jsLt (mult (size e)) (mult (getSizeFromUrl (depUrl d))) = true))
  /\ (Forall (fun d => isNum (width (getSizeFromUrl (depUrl d)))) deps ->
      exists t,
        insertDeps store deps !! path = Some t
        /\ (exists d, d ∈ deps /\ t = task d)
        /\ (forall d, d ∈ deps ->
              jsLt (width (size t)) (width (getSizeFromUrl (depUrl d))) = false))
  /\ (Forall (fun d => isNum (mult (getSizeFromUrl (depUrl d)))) deps ->
      exists t,
        insertDeps store deps !! path = Some t
        /\ (exists d, d ∈ deps /\ t = task d)
        /\ (forall d, d ∈ deps ->
              jsLt (mult (size t)) (mult (getSizeFromUrl (depUrl d))) = false)).
Proof.
  intros Hne Hpath Hnone. split; [|split].
  - intros s d e He Hchg. rewrite (insertDep_existing s d e He) in *.
    destruct (jsLt (width (size e)) _) eqn:Hw; simpl in *; [auto|].
    destruct (jsLt (mult (size e)) _) eqn:Hm; simpl in *; [auto|congruence].
  - intros Hw.
    apply (insertDeps_max_from_empty width mult path deps store); auto.
    rewrite Forall_forall in *. intros d Hd. split; [apply Hpath, Hd|].
    split; [apply Hw, Hd|]. apply getSizeFromUrl_one_measure, Hw, Hd.
  - intros Hm.
    apply (insertDeps_max_from_empty mult width path deps store); auto.
    + intros e sz. apply orb_comm.
    + rewrite Forall_forall in *. intros d Hd. split; [apply Hpath, Hd|].
      split; [apply Hm, Hd|]. apply getSizeFromUrl_one_measure, Hm, Hd.
Qed.

Lemma file_store_upgrade_witness :
  exists t,
    insertDeps ∅ [thumb120; thumb275; thumb120] !! "London.jpg" = Some t
    /\ jsLt (width (size t)) (Some (Num 275 0)) = false.
Proof.
  destruct (file_store_upgrade "London.jpg" [thumb120; thumb275; thumb120] ∅)
    as (_ & Hw & _).
  - discriminate.
  - repeat constructor.
  - reflexivity.
  - destruct Hw as (t & Ht & _ & Hmax).
    + repeat constructor; eexists _, _; vm_compute; reflexivity.
    + exists t. split; [exact Ht|].
      apply (Hmax thumb275). set_solver.
Defined.

End FilesFacts.

(** ** URL prefix cache: round trip *)

Module UrlCacheFacts.

Import UrlCache.

Lemma split_no_sep (c : ascii) (s : string) :
  hasChar c s = false -> Js.split c s = [s].
Proof.
  induction s as [|a s IH]; simpl; [reflexivity|].
  intros [Ha Hs]%orb_false_iff. rewrite Ha, (IH Hs). reflexivity.
Qed.

Lemma split_app_sep (c : ascii) (s t : string) :
  hasChar c s = false ->
  Js.split c (s +:+ String c t) = s :: Js.split c t.
Proof.
  induction s as [|a s IH]; simpl.
  - intros _. rewrite Ascii.eqb_refl. reflexivity.
  - intros [Ha Hs]%orb_false_iff. rewrite Ha, (IH Hs). reflexivity.
Qed.

Lemma split_not_nil (c : ascii) (s : string) : Js.split c s <> [].
Proof.
  destruct s as [|a s]; simpl; [discriminate|].
  destruct (Ascii.eqb a c); [discriminate|].
  destruct (Js.split c s); discriminate.
Qed.

Lemma join_split (c : ascii) (s : string) :
  Js.join (String c "") (Js.split c s) = s.
Proof.
  induction s as [|a s IH]; [reflexivity|].
  simpl Js.split. destruct (Ascii.eqb_spec a c) as [->|Hne].
  - pose proof (split_not_nil c s) as Hnn.
    destruct (Js.split c s) as [|w ws] eqn:E; [congruence|].
    change (Js.join (String c "") ("" :: w :: ws))
      with (String c (Js.join (String c "") (w :: ws))).
    rewrite IH. reflexivity.
  - pose proof (split_not_nil c s) as Hnn.
    destruct (Js.split c s) as [|w ws] eqn:E; [congruence|].
    destruct ws as [|w' ws].
    + simpl in *. rewrite IH. reflexivity.
    + change (Js.join (String c "") (String a w :: w' :: ws))
        with (String a (Js.join (String c "") (w :: w' :: ws))).
      rewrite IH. reflexivity.
Qed.

Lemma prefix_refl (s : string) : String.prefix s s = true.
Proof.
  induction s as [|a s IH]; [reflexivity|]. simpl.
  destruct (Ascii.ascii_dec a a); [exact IH | congruence].
Qed.

Lemma dropStr_length (s : string) : Js.dropStr (String.length s) s = "".
Proof. induction s as [|a s IH]; [reflexivity | exact IH]. Qed.

(** When [p] occurs in [c +:+ p] at its end only, removing its first
    occurrence leaves [c]. *)
Lemma replaceFirst_suffix (c p : string) :
  (forall k, k < String.length c ->
             String.prefix p (Js.dropStr k (c +:+ p)) = false) ->
  Js.replaceFirst p "" (c +:+ p) = c.
Proof.
  induction c as [|a c IH]; intros H.
  - change ("" +:+ p) with p. destruct p as [|b p]; [reflexivity|].
    unfold Js.replaceFirst. fold Js.replaceFirst.
    rewrite prefix_refl, dropStr_length. reflexivity.
  - change (String a c +:+ p) with (String a (c +:+ p)) in *.
    pose proof (H 0 ltac:(simpl; lia)) as H0. simpl Js.dropStr in H0.
    unfold Js.replaceFirst. fold Js.replaceFirst. rewrite H0.
    rewrite IH; [reflexivity|].
    intros k Hk. apply (H (S k)). simpl. lia.
Qed.

Lemma find_In_fst (cache : Cache) (k v : string) :
  lookup cache k = Some v -> (k, v) ∈ cache.
Proof.
  unfold lookup. destruct (List.find _ cache) as [[k' v']|] eqn:E; [|discriminate].
  intros [= <-]. apply List.find_some in E as [Hin Hk].
  apply String.eqb_eq in Hk. simpl in Hk. subst k'.
  apply list_elem_of_In. exact Hin.
Qed.

(** With pairwise distinct prefixes, the entry found by value is the one
    registered under the id. *)
Lemma findByValue_unique (cache : Cache) (k v : string) :
  NoDup cache.*2 -> (k, v) ∈ cache -> findByValue cache v = Some (k, v).
Proof.
  unfold findByValue. induction cache as [|[k' v'] cache IH]; intros Hnd Hin.
  - inversion Hin.
  - simpl. apply NoDup_cons in Hnd as [Hnotin Hnd].
    destruct (String.eqb_spec v' v) as [->|Hne].
    + apply elem_of_cons in Hin as [[= -> ]|Hin]; [reflexivity|].
      exfalso. apply Hnotin. apply list_elem_of_fmap. exists (k, v). auto.
    + apply elem_of_cons in Hin as [[= -> ->]|Hin]; [congruence|]. auto.
Qed.

Lemma deserializeUrl_serialized (cache : Cache) (cacheId p v : string) :
  hasChar "_" cacheId = false ->
  lookup cache cacheId = Some v ->
  deserializeUrl cache ("_" +:+ cacheId +:+ "_" +:+ p) = v +:+ p.
Proof.
  intros Hid Hl. unfold deserializeUrl.
  change ("_" +:+ cacheId +:+ "_" +:+ p) with (String "_" (cacheId +:+ String "_" p)).
  assert (Js.startsWith "_" (String "_" (cacheId +:+ String "_" p)) = true) as ->.
  { unfold Js.startsWith. simpl.
    destruct (cacheId +:+ String "_" p); reflexivity. }
  simpl negb. cbv iota.
  change (Js.split "_" (String "_" (cacheId +:+ String "_" p)))
    with ("" :: Js.split "_" (cacheId +:+ String "_" p)).
  rewrite (split_app_sep _ _ _ Hid), Hl, join_split. reflexivity.
Qed.

(** C9 as stated fails: with the prefix of the wiki registered under id 1,
    the strings [_1_] and [_1_/wiki/A#top] start with [_] and name a
    registered prefix, yet serialising their deserialisation registers a new
    prefix and answers with id 2. *)
Lemma serialize_deserialize_counterexample :
  deserializeUrl exampleCache "_1_" = "https://en.wikipedia.org"
  /\ serializeUrl httpPath exampleCache (deserializeUrl exampleCache "_1_")
     = ("_2_/", exampleCache ++ [("2", "https:/en.wikipedia.org")])
  /\ deserializeUrl exampleCache "_1_/wiki/A#top" = "https://en.wikipedia.org/wiki/A#top"
  /\ serializeUrl httpPath exampleCache (deserializeUrl exampleCache "_1_/wiki/A#top")
     = ("_2_/wiki/A", exampleCache ++ [("2", "https://en.wikipedia.org#top")]).
Proof. repeat split; vm_compute; reflexivity. Qed.

(** C9, amended.  Let [x] be [_id_p] where [id] contains no underscore and
    is registered with prefix [c], no prefix being registered twice; if the
    URL parser gives [p] as the path of [c p] and [p] occurs in [c p] at its
    end only (as for every [x] that [serializeUrl] made from a URL of the
    form [c p]), then serialising the deserialisation of [x] gives [x] back
    and leaves the cache unchanged. *)
Theorem serialize_deserialize (urlPath : string -> option string) (cache : Cache)
  (cacheId c p : string) :
  hasChar "_" cacheId = false ->
  lookup cache cacheId = Some c ->
  NoDup cache.*2 ->
  urlPath (c +:+ p) = Some p ->
  (forall k, k < String.length c ->
             String.prefix p (Js.dropStr k (c +:+ p)) = false) ->
  let x := "_" +:+ cacheId +:+ "_" +:+ p in
  Js.startsWith "_" x = true
  /\ serializeUrl urlPath cache (deserializeUrl cache x) = (x, cache).
Proof.
  intros Hid Hl Hnd Hpath Hocc x. split.
  { subst x. unfold Js.startsWith.
    change ("_" +:+ cacheId +:+ "_" +:+ p) with (String "_" (cacheId +:+ String "_" p)).
    simpl. destruct (cacheId +:+ String "_" p); reflexivity. }
  subst x. rewrite (deserializeUrl_serialized cache cacheId p c Hid Hl).
  unfold serializeUrl. rewrite Hpath, (replaceFirst_suffix c p Hocc).
  rewrite (findByValue_unique cache cacheId c Hnd (find_In_fst _ _ _ Hl)).
  reflexivity.
Qed.

Lemma serialize_deserialize_witness :
  serializeUrl httpPath exampleCache
    (deserializeUrl exampleCache "_1_/w/api.php?action=query&titles=A_B")
  = ("_1_/w/api.php?action=query&titles=A_B", exampleCache).
Proof.
  apply (serialize_deserialize httpPath exampleCache "1" "https://en.wikipedia.org"
           "/w/api.php?action=query&titles=A_B").
  - reflexivity.
  - reflexivity.
  - repeat constructor; set_solver.
  - reflexivity.
  - intros k Hk.
    do 24 (destruct k as [|k]; [reflexivity|]). simpl in Hk. lia.
Defined.

End UrlCacheFacts.

(** ** Blob cache: conditional revalidation *)

Module BlobCacheFacts.

Import Downloader BlobCache.

Lemma withCachedEtag_header (env : Env) (st : State) (o : BlobObject) (e : string) :
  MetadataEtag o = Some e -> e <> "" ->
  ifNoneMatch (withCachedEtag env st (Some o)) = Some (weakEtagReplace env e).
Proof.
  intros He Hne. unfold withCachedEtag. simpl. rewrite He. simpl.
  destruct e as [|a e]; [congruence|]. reflexivity.
Qed.

(** [downloadImage] acts on the counters as a sequence of events. *)
Lemma downloadImage_events (env : Env) (st : State) (url : string)
  (blob : string -> Settled (option BlobObject))
  (upstream : string -> option string -> Settled Response) :
  exists evs,
    counters (downloadImage env st url blob upstream).1
    = fold_left step evs (counters st).
Proof.
  assert (forall st0, counters (withCachedEtag env st0 None) = counters st0
                      /\ forall o, counters (withCachedEtag env st0 (Some o))
                                   = counters st0) as Hc.
  { intros st0. unfold withCachedEtag. simpl. split; [reflexivity|].
    intros o. destruct (truthyOpt (MetadataEtag o)); reflexivity. }
  unfold downloadImage, fail, errHandler.
  destruct (blob (stripHttpFromUrl env url)) as [imageResp|e]; simpl.
  - destruct (upstream url _) as [resp|e]; simpl.
    + destruct (Z.eqb (status resp) 304).
      * destruct imageResp as [o|]; simpl.
        -- exists []. apply Hc.
        -- exists []. reflexivity.
      * destruct (getCompressedBody env resp); simpl; exists [];
          destruct imageResp; apply Hc.
    + exists [EvErrHandler e]. simpl. unfold errHandler.
      destruct imageResp; simpl; rewrite ?(proj2 (Hc st)); reflexivity.
  - exists [EvErrHandler e]. reflexivity.
Qed.

(** C5 as stated fails.  With the weak-validator prefix of RFC 7232 removed
    by [removeEtagWeakPrefix]: an upstream 200 whose etag is [W/abc] is
    uploaded with the etag [abc]; and a cached etag [W/abc] is sent as
    [If-None-Match: abc].  Independently of that prefix: a 304 for a URL
    without cached object (its request carries the [If-None-Match] left in
    the shared options by an earlier image) is answered to the caller with
    an error. *)
Lemma blob_cache_counterexample :
  (downloadImage exampleEnv exampleState logoUrl
     (fun _ => Resolved None) (fun _ _ => Resolved weakResponse)).2
  = [DownloadBlob logoKey; Get logoUrl None; UploadBlob logoKey "PNG" "abc";
     Handler (Value {| responseHeaders :=
                         UpstreamHeaders (Some "W/abc") [("content-type", "image/png")];
                       content := "PNG" |})]
  /\ (downloadImage exampleEnv exampleState logoUrl
        (fun _ => Resolved (Some {| Body := "PNG"; MetadataEtag := Some "W/abc";
                                    otherFields := [] |}))
        (fun _ _ => Resolved notModified)).2
     = [DownloadBlob logoKey; Get logoUrl (Some "abc");
        Handler (Value {| responseHeaders := CachedHeaders (Some "W/abc") [];
                          content := "PNG" |})]
  /\ (let st1 := (downloadImage exampleEnv exampleState logoUrl
                    (fun _ => Resolved (Some cachedLogo))
                    (fun _ _ => Resolved notModified)).1 in
      (downloadImage exampleEnv st1 copyUrl
         (fun _ => Resolved None) (fun _ _ => Resolved notModified)).2
      = [DownloadBlob "bm.wikipedia.org/static/images/project-logos/bmwiki-copy.png";
         Get copyUrl (Some "abc");
         Handler (Error plainError)]).
Proof. repeat split. Qed.

(** C5, amended.  When the cached object carries a non-empty metadata etag,
    the upstream GET carries [If-None-Match] with that etag stripped of its
    weak prefix.  When the upstream answers 304 and there is a cached
    object, the caller gets the cached bytes and the stored fields, and
    nothing is uploaded.  When the upstream answers 2xx with an etag that is
    not empty once stripped of its weak prefix, the body is uploaded under
    [stripHttpFromUrl(url)] with the stripped etag, before the caller is
    answered.  No upload happens in the 304 case. *)
Theorem blob_cache_revalidation (env : Env) (st : State) (url : string)
  (blob : string -> Settled (option BlobObject))
  (upstream : string -> option string -> Settled Response)
  (imageResp : option BlobObject) (resp : Response) :
  let key := stripHttpFromUrl env url in
  let sent := ifNoneMatch (withCachedEtag env st imageResp) in
  let effs := (downloadImage env st url blob upstream).2 in
  blob key = Resolved imageResp ->
  upstream url sent = Resolved resp ->
  take 2 effs = [DownloadBlob key; Get url sent]
  /\ (forall o e, imageResp = Some o -> MetadataEtag o = Some e -> e <> "" ->
        sent = Some (weakEtagReplace env e))
  /\ (status resp = 304%Z ->
      Forall (fun eff => isUpload eff = false) effs
      /\ forall o, imageResp = Some o ->
           effs = [DownloadBlob key; Get url sent;
                   Handler (Value {| responseHeaders :=
                                       CachedHeaders (MetadataEtag o) (otherFields o);
                                     content := Body o |})])
  /\ ((200 <= status resp < 300)%Z ->
      forall e, headersEtag resp = Some e -> e <> "" ->
        weakEtagReplace env e <> "" ->
        effs !! 2 = Some (UploadBlob key (data resp) (weakEtagReplace env e))
        /\ length effs = 4).
Proof.
  intros key sent effs Hblob Hup. subst effs. unfold downloadImage.
  fold key. rewrite Hblob. fold sent. rewrite Hup.
  split; [|split; [|split]].
  - destruct (Z.eqb (status resp) 304); repeat case_match; reflexivity.
  - intros o e -> He Hne. apply withCachedEtag_header; assumption.
  - intros H304. rewrite H304. simpl. split.
    + destruct imageResp; simpl; unfold fail, errHandler; simpl;
        repeat constructor.
    + intros o ->. reflexivity.
  - intros Hst e He Hne Hstrip.
    destruct (Z.eqb_spec (status resp) 304) as [E|_]; [lia|].
    rewrite He. unfold removeEtagWeakPrefix.
    destruct e as [|a e]; [congruence|]. simpl Js.truthy. cbv iota.
    destruct (weakEtagReplace env (String a e)) as [|b w] eqn:Ew; [congruence|].
    simpl Js.truthy. cbv iota.
    destruct (getCompressedBody env resp); unfold fail, errHandler; simpl;
      split; reflexivity.
Qed.

Lemma blob_cache_revalidation_witness :
  (downloadImage exampleEnv exampleState logoUrl
     (fun _ => Resolved (Some cachedLogo)) (fun _ _ => Resolved notModified)).2
  = [DownloadBlob logoKey; Get logoUrl (Some "abc");
     Handler (Value {| responseHeaders :=
                         CachedHeaders (Some "abc") [("ContentType", "image/png")];
                       content := "PNG" |})].
Proof.
  destruct (blob_cache_revalidation exampleEnv exampleState logoUrl
              (fun _ => Resolved (Some cachedLogo)) (fun _ _ => Resolved notModified)
              (Some cachedLogo) notModified eq_refl eq_refl)
    as (_ & _ & H304 & _).
  destruct (H304 eq_refl) as [_ H]. exact (H cachedLogo eq_refl).
Defined.

End BlobCacheFacts.

(** ** The clean-up passes over a snapshot *)

Module DomFacts.

Import Dom.

Lemma Node_induction (P : Node -> Prop) :
  (forall d, P (Text d)) ->
  (forall t a cs, Forall P cs -> P (Element t a cs)) ->
  forall n, P n.
Proof.
  intros HT HE. fix IH 1. intros [t a cs|d]; [|apply HT].
  apply HE. induction cs as [|c cs IHcs]; constructor; [apply IH | exact IHcs].
Qed.

(** The inner walk of [getElementsByTagName] over the children [cs], the
    first of which has index [i]. *)
Local Abbreviation walk tag :=
  (fix go (i : nat) (cs : list Node) : list Path :=
     match cs with
     | [] => []
     | c :: cs' =>
         match c with
         | Element t _ _ => if String.eqb t tag then [[i]] else []
         | Text _ => []
         end
         ++ map (cons i) (getElementsByTagName tag c)
         ++ go (S i) cs'
     end).

Lemma walk_elem (tag : string) (cs : list Node) (i : nat) (p : Path) :
  p ∈ walk tag i cs
  <-> exists k c, cs !! k = Some c
        /\ ((p = [i + k] /\ tagOf c = Some tag)
            \/ exists p', p = (i + k) :: p' /\ p' ∈ getElementsByTagName tag c).
Proof.
  revert i. induction cs as [|c cs IH]; intros i.
  - split; [intros H; inversion H | intros (k & c & Hk & _); discriminate Hk].
  - rewrite !elem_of_app, IH. split.
    + intros [Hp|[Hp|(k & c' & Hk & H)]].
      * exists 0, c. split; [reflexivity|]. left. rewrite Nat.add_0_r.
        destruct c as [t a l|d]; [|inversion Hp].
        destruct (String.eqb t tag) eqn:Et; [|inversion Hp].
        apply list_elem_of_singleton in Hp. apply String.eqb_eq in Et as ->.
        split; [exact Hp | reflexivity].
      * exists 0, c. split; [reflexivity|]. right. rewrite Nat.add_0_r.
        apply (proj1 (list_elem_of_fmap _ _ _)) in Hp as (p' & -> & Hp').
        exists p'. split; [reflexivity | exact Hp'].
      * exists (S k), c'. split; [exact Hk|].
        replace (i + S k) with (S i + k) by lia. exact H.
    + intros (k & c' & Hk & H). destruct k as [|k].
      * injection Hk as <-. rewrite Nat.add_0_r in H.
        destruct H as [[-> Ht]|(p' & -> & Hp')].
        -- left. destruct c as [t a l|d]; [|discriminate Ht].
           injection Ht as ->. rewrite String.eqb_refl. left.
        -- right. left. apply list_elem_of_fmap_2. exact Hp'.
      * right. right. exists k, c'. split; [exact Hk|].
        replace (S i + k) with (i + S k) by lia. exact H.
Qed.

(** The members of the list of [Element t a cs]: the children with the tag
    and the members of the lists of the children. *)
Lemma getElementsByTagName_elem (tag t : string) (a : list (string * string))
  (cs : list Node) (p : Path) :
  p ∈ getElementsByTagName tag (Element t a cs)
  <-> exists k c, cs !! k = Some c
        /\ ((p = [k] /\ tagOf c = Some tag)
            \/ exists p', p = k :: p' /\ p' ∈ getElementsByTagName tag c).
Proof. exact (walk_elem tag cs 0 p). Qed.

Lemma getElementsByTagName_nonempty (tag : string) (n : Node) :
  [] ∉ getElementsByTagName tag n.
Proof.
  destruct n as [t a cs|d]; [|intros H; inversion H].
  rewrite getElementsByTagName_elem.
  intros (k & c & _ & [[H _]|(p' & H & _)]); discriminate H.
Qed.

(** A path is in the list exactly when it is not the root and leads to an
    element with the tag. *)
Lemma getElementsByTagName_spec (tag : string) (n : Node) (p : Path) :
  p ∈ getElementsByTagName tag n
  <-> p <> [] /\ exists a cs, nodeAt p n = Some (Element tag a cs).
Proof.
  revert p. induction n as [d|t a cs IH] using Node_induction; intros p.
  - split; [intros H; inversion H|]. intros [Hp (a & cs & H)].
    destruct p as [|i p]; [congruence | discriminate H].
  - rewrite Forall_forall in IH. rewrite getElementsByTagName_elem. split.
    + intros (k & c & Hk & [[-> Ht]|(p' & -> & Hp')]).
      * split; [discriminate|]. destruct c as [t' a' cs'|d]; [|discriminate Ht].
        injection Ht as ->. exists a', cs'. simpl. rewrite Hk. reflexivity.
      * split; [discriminate|].
        apply (IH c (list_elem_of_lookup_2 _ _ _ Hk)) in Hp' as [_ (a' & cs' & H)].
        exists a', cs'. simpl. rewrite Hk. exact H.
    + intros [Hp (a' & cs' & H)]. destruct p as [|k p]; [congruence|].
      simpl in H. destruct (cs !! k) as [c|] eqn:Hk; [|discriminate H].
      simpl in H. exists k, c. split; [exact Hk|].
      destruct p as [|j p].
      * left. split; [reflexivity|]. simpl in H. injection H as ->. reflexivity.
      * right. exists (j :: p). split; [reflexivity|].
        apply (IH c (list_elem_of_lookup_2 _ _ _ Hk)). split; [discriminate|].
        eauto.
Qed.

Lemma nodeAt_app (q r : Path) (n : Node) :
  nodeAt (q ++ r) n = nodeAt q n ≫= nodeAt r.
Proof.
  revert n. induction q as [|i q IH]; intros n; [reflexivity|].
  simpl. destruct (childrenOf n !! i) as [c|]; [apply IH | reflexivity].
Qed.

(** Every member of the list has a parent in the tree. *)
Lemma getElementsByTagName_parent (tag : string) (n : Node) (p : Path) :
  p ∈ getElementsByTagName tag n ->
  exists q i, p = q ++ [i] /\ is_Some (nodeAt q n).
Proof.
  intros Hp. apply getElementsByTagName_spec in Hp as [Hne (a & cs & H)].
  destruct p as [|j p] using rev_ind; [congruence|]. clear IHp.
  exists p, j. split; [reflexivity|]. rewrite nodeAt_app in H.
  destruct (nodeAt p n); [eauto | discriminate H].
Qed.

(** *** Document order *)

Lemma before_irrefl (p : Path) : ~ before p p.
Proof. induction p as [|i p IH]; simpl; [tauto | intros [H|[_ H]]; [lia | tauto]]. Qed.

Lemma before_trans (p q r : Path) : before p q -> before q r -> before p r.
Proof.
  revert q r. induction p as [|i p IH]; intros [|j q] [|k r]; simpl; try tauto.
  intros [H1|[-> H1]] [H2|[-> H2]]; [left; lia | left; lia | left; lia |].
  right. split; [reflexivity | eauto].
Qed.

Lemma before_snoc (q : Path) (i j : nat) :
  before (q ++ [i]) (q ++ [j]) <-> i < j.
Proof.
  induction q as [|k q IH]; simpl.
  - split; [intros [H|[_ []]]; exact H | auto].
  - rewrite IH. split; [intros [H|[_ H]]; [lia | exact H] | auto].
Qed.

Lemma getElementsByTagName_sorted (tag : string) (n : Node) :
  StronglySorted before (getElementsByTagName tag n).
Proof.
  induction n as [d|t a cs IH] using Node_induction; [constructor|].
  simpl. generalize 0 as i.
  induction IH as [|c cs Hc _ IHcs]; intros i; [constructor|].
  apply StronglySorted_app_2.
  - intros p q Hp Hq.
    assert (p = [i]) as ->.
    { destruct c as [t' a' cs'|d]; [|inversion Hp].
      destruct (String.eqb t' tag); [|inversion Hp].
      apply list_elem_of_singleton in Hp. exact Hp. }
    apply elem_of_app in Hq as [Hq|Hq].
    + apply list_elem_of_fmap_1 in Hq as (q' & -> & Hq'). simpl. right.
      split; [reflexivity|]. destruct q' as [|j q']; [|exact I].
      exfalso. exact (getElementsByTagName_nonempty _ _ Hq').
    + apply walk_elem in Hq as (k & c' & _ & [[-> _]|(q' & -> & _)]);
        simpl; left; lia.
  - destruct c as [t' a' cs'|d]; [|constructor].
    destruct (String.eqb t' tag); repeat constructor.
  - apply StronglySorted_app_2.
    + intros p q Hp Hq. apply list_elem_of_fmap_1 in Hp as (p' & -> & _).
      apply walk_elem in Hq as (k & c' & _ & [[-> _]|(q' & -> & _)]);
        simpl; left; lia.
    + apply StronglySorted_fmap with (R1 := before); [|exact Hc].
      intros p q Hpq. simpl. right. auto.
    + apply IHcs.
Qed.

(** *** The nodes around a heading *)

Lemma siblingsAfter_elem (p q : Path) (doc : Node) (y : Node) :
  (q, y) ∈ siblingsAfter p doc ->
  exists pp i j, p = pp ++ [i] /\ q = pp ++ [j] /\ i < j /\ nodeAt q doc = Some y.
Proof.
  unfold siblingsAfter. destruct (reverse p) as [|i rp] eqn:Hr; [intros H; inversion H|].
  assert (p = reverse rp ++ [i]) as Hp.
  { rewrite <- (reverse_involutive p), Hr. apply reverse_cons. }
  destruct (nodeAt (reverse rp) doc) as [parent|] eqn:Hpar; [|intros H; inversion H].
  intros H. apply list_elem_of_lookup_1 in H as [k Hk].
  rewrite lookup_drop, list_lookup_imap in Hk.
  destruct (childrenOf parent !! (S i + k)) as [c|] eqn:Hc; [|discriminate Hk].
  injection Hk as <- <-.
  exists (reverse rp), i, (S i + k). split; [exact Hp|]. split; [reflexivity|].
  split; [lia|]. rewrite nodeAt_app, Hpar. simpl in *. rewrite Hc. reflexivity.
Qed.

Lemma find_weaken {A} (P Q : A -> bool) (l : list A) (x : A) :
  (forall y, Q y = true -> P y = true) ->
  List.find P l = Some x -> Q x = true -> List.find Q l = Some x.
Proof.
  intros HQP. induction l as [|y l IH]; [discriminate|]. simpl.
  destruct (P y) eqn:HP.
  - intros [= ->] HQ. rewrite HQ. reflexivity.
  - intros Hf HQ. destruct (Q y) eqn:HQy; [|auto].
    rewrite (HQP y HQy) in HP. discriminate HP.
Qed.

Lemma find_none_weaken {A} (P Q : A -> bool) (l : list A) :
  (forall y, Q y = true -> P y = true) ->
  List.find P l = None -> List.find Q l = None.
Proof.
  intros HQP. induction l as [|y l IH]; [reflexivity|]. simpl.
  destruct (P y) eqn:HP; [discriminate|]. intros Hf.
  destruct (Q y) eqn:HQy; [|auto].
  rewrite (HQP y HQy) in HP. discriminate HP.
Qed.

Lemma removed_self (deleted : list Path) (p : Path) :
  p ∈ deleted -> removed deleted p = true.
Proof.
  intros H. unfold removed. apply existsb_exists. exists p.
  split; [apply list_elem_of_In, H | apply bool_decide_eq_true_2; reflexivity].
Qed.

Lemma removed_mono (d d' : list Path) (p : Path) :
  (forall q, q ∈ d -> q ∈ d') -> removed d p = true -> removed d' p = true.
Proof.
  unfold removed. rewrite !existsb_exists. intros Hsub (q & Hq & Hpre).
  exists q. split; [|exact Hpre]. apply list_elem_of_In, Hsub, list_elem_of_In, Hq.
Qed.

(** With the parent at hand and the node still attached, the body of the
    loop is a plain test. *)
Lemma treatHeading_attached (level : nat) (doc : Node) (deleted : list Path)
  (p : Path) (parent : Node) :
  p ∉ deleted ->
  parentElement [] p doc = Some parent ->
  treatHeading level doc deleted p
  = Return (if bool_decide (tagOf parent = Some "summary") then deleted
            else if followedByNothingOrHeading level doc deleted p
                 then p :: deleted else deleted).
Proof.
  intros Hp Hpar. unfold treatHeading, followedByNothingOrHeading, parentElement in *.
  rewrite bool_decide_eq_false_2 by exact Hp.
  rewrite bool_decide_eq_false_2 in Hpar by (intros H; inversion H).
  rewrite Hpar. simpl.
  destruct (bool_decide (tagOf parent = Some "summary")); [reflexivity|].
  destruct (nextElementSibling deleted p doc) as [[q next]|]; [|reflexivity].
  destruct (isHeadingUpTo level (default "" (tagOf next))); reflexivity.
Qed.

Lemma headingLoop_app (level : nat) (doc : Node) (l1 l2 : list Path)
  (d : list Path) :
  headingLoop level doc (l1 ++ l2) d
  = headingLoop level doc l1 d ≫= headingLoop level doc l2.
Proof.
  revert d. induction l1 as [|p l1 IH]; intros d; [reflexivity|].
  simpl. destruct (treatHeading level doc d p) as [|d1]; [reflexivity|].
  apply IH.
Qed.

(** What the loop over a snapshot does: it ends without an exception, and
    the nodes it detaches are members of the snapshot that passed the
    tests. *)
Lemma headingLoop_returns (level : nat) (doc : Node) (l : list Path)
  (d : list Path) :
  (forall p, p ∈ l -> is_Some (parentElement [] p doc)) ->
  NoDup l ->
  (forall p, p ∈ l -> p ∉ d) ->
  exists d',
    headingLoop level doc l d = Return d'
    /\ (forall q, q ∈ d -> q ∈ d')
    /\ (forall q, q ∈ d' ->
          q ∈ d
          \/ (q ∈ l
              /\ exists parent d1,
                   parentElement [] q doc = Some parent
                   /\ tagOf parent <> Some "summary"
                   /\ (forall x, x ∈ d1 -> x ∈ d')
                   /\ followedByNothingOrHeading level doc d1 q = true)).
Proof.
  revert d. induction l as [|p l IH]; intros d Hpar Hnd Hfresh.
  - exists d. split; [reflexivity|]. split; [auto|]. intros q Hq. left. exact Hq.
  - apply NoDup_cons in Hnd as [Hpl Hnd].
    destruct (Hpar p ltac:(left)) as [parent Hparent].
    simpl. rewrite (treatHeading_attached level doc d p parent
                      (Hfresh p ltac:(left)) Hparent).
    simpl.
    set (d1 := if bool_decide (tagOf parent = Some "summary") then d
               else if followedByNothingOrHeading level doc d p
                    then p :: d else d).
    assert (forall q, q ∈ d1 -> q ∈ d \/ q = p) as Hd1.
    { intros q Hq. subst d1. repeat case_match; auto.
      apply elem_of_cons in Hq as [->|Hq]; auto. }
    assert (forall q, q ∈ d -> q ∈ d1) as Hdd1.
    { intros q Hq. subst d1. repeat case_match; auto. right. exact Hq. }
    destruct (IH d1) as (d' & Hrun & Hsub & Hchar).
    + intros q Hq. apply Hpar. right. exact Hq.
    + exact Hnd.
    + intros q Hq Hqd. destruct (Hd1 q Hqd) as [Hqd'| ->].
      * exact (Hfresh q ltac:(right; exact Hq) Hqd').
      * exact (Hpl Hq).
    + exists d'. split; [exact Hrun|]. split; [auto|].
      intros q Hq. destruct (Hchar q Hq) as [Hq1|(Hql & Hrest)].
      * destruct (decide (q ∈ d)) as [Hqd|Hqd]; [left; exact Hqd|]. right.
        destruct (Hd1 q Hq1) as [Hqd'| ->]; [tauto|].
        split; [left|]. exists parent, d. subst d1.
        destruct (bool_decide (tagOf parent = Some "summary")) eqn:Hs; [tauto|].
        destruct (followedByNothingOrHeading level doc d p) eqn:Hf; [|tauto].
        split; [exact Hparent|]. split; [exact (bool_decide_eq_false_1 _ Hs)|].
        split; [|reflexivity]. intros x Hx. apply Hsub. right. exact Hx.
      * right. split; [right; exact Hql | exact Hrest].
Qed.

(** A member of the snapshot that passes the tests, whatever the nodes
    before it did, is detached. *)
Lemma headingLoop_deletes (level : nat) (doc : Node) (l1 l2 : list Path)
  (p : Path) (d d' : list Path) (parent : Node) :
  (forall q, q ∈ l1 ++ p :: l2 -> is_Some (parentElement [] q doc)) ->
  NoDup (l1 ++ p :: l2) ->
  (forall q, q ∈ l1 ++ p :: l2 -> q ∉ d) ->
  parentElement [] p doc = Some parent ->
  tagOf parent <> Some "summary" ->
  (forall d1, (forall q, q ∈ d1 -> q ∈ d \/ q ∈ l1) ->
              followedByNothingOrHeading level doc d1 p = true) ->
  headingLoop level doc (l1 ++ p :: l2) d = Return d' ->
  p ∈ d'.
Proof.
  intros Hpar Hnd Hfresh Hparent Hsum Htest Hrun.
  rewrite headingLoop_app in Hrun.
  apply NoDup_app in Hnd as (Hnd1 & Hdisj & Hnd2).
  destruct (headingLoop_returns level doc l1 d) as (d1 & Hrun1 & Hsub1 & Hchar1).
  { intros q Hq. apply Hpar, elem_of_app. left. exact Hq. }
  { exact Hnd1. }
  { intros q Hq. apply Hfresh, elem_of_app. left. exact Hq. }
  rewrite Hrun1 in Hrun. simpl in Hrun.
  assert (forall q, q ∈ d1 -> q ∈ d \/ q ∈ l1) as Hbound.
  { intros q Hq. destruct (Hchar1 q Hq) as [H|[H _]]; auto. }
  assert (p ∉ d1) as Hpd1.
  { intros Hp. destruct (Hbound p Hp) as [H|H].
    - exact (Hfresh p ltac:(apply elem_of_app; right; left) H).
    - exact (Hdisj p H ltac:(left)). }
  rewrite (treatHeading_attached level doc d1 p parent Hpd1 Hparent) in Hrun.
  rewrite bool_decide_eq_false_2 in Hrun by exact Hsum.
  rewrite (Htest d1 Hbound) in Hrun. simpl in Hrun.
  apply NoDup_cons in Hnd2 as [Hpl2 Hnd2].
  destruct (headingLoop_returns level doc l2 (p :: d1)) as (d2 & Hrun2 & Hsub2 & _).
  { intros q Hq. apply Hpar, elem_of_app. right. right. exact Hq. }
  { exact Hnd2. }
  { intros q Hq Hqd. apply elem_of_cons in Hqd as [->|Hqd]; [exact (Hpl2 Hq)|].
    destruct (Hbound q Hqd) as [H|H].
    - exact (Hfresh q ltac:(apply elem_of_app; right; right; exact Hq) H).
    - exact (Hdisj q H ltac:(right; exact Hq)). }
  rewrite Hrun2 in Hrun. injection Hrun as <-. apply Hsub2. left.
Qed.

(** *** The snapshot of a level *)

Lemma StronglySorted_filter_before (P : Path -> Prop) `{forall p, Decision (P p)}
  (l : list Path) :
  StronglySorted before l -> StronglySorted before (filter P l).
Proof.
  induction 1 as [|p l Hl IH Hp]; [constructor|].
  rewrite filter_cons. destruct (decide (P p)); [|exact IH].
  constructor; [exact IH|]. rewrite Forall_forall in *.
  intros q Hq. apply list_elem_of_filter in Hq as [_ Hq]. auto.
Qed.

Lemma StronglySorted_before_NoDup (l : list Path) :
  StronglySorted before l -> NoDup l.
Proof.
  induction 1 as [|p l Hl IH Hp]; constructor; [|exact IH].
  intros Hin. rewrite Forall_forall in Hp. exact (before_irrefl p (Hp p Hin)).
Qed.

Lemma parentElement_snoc (q : Path) (i : nat) (doc : Node) :
  parentElement [] (q ++ [i]) doc = nodeAt q doc.
Proof.
  unfold parentElement. rewrite bool_decide_eq_false_2 by (intros H; inversion H).
  rewrite reverse_snoc, reverse_involutive. reflexivity.
Qed.

Lemma parentElement_root (doc : Node) : parentElement [] [] doc = None.
Proof. reflexivity. Qed.

Lemma elementsByTagName_elem (tag : string) (doc : Node) (d : list Path)
  (p : Path) :
  p ∈ elementsByTagName tag doc d
  <-> p ∈ getElementsByTagName tag doc /\ removed d p = false.
Proof. unfold elementsByTagName. rewrite list_elem_of_filter. tauto. Qed.

Lemma elementsByTagName_sorted (tag : string) (doc : Node) (d : list Path) :
  StronglySorted before (elementsByTagName tag doc d).
Proof. apply StronglySorted_filter_before, getElementsByTagName_sorted. Qed.

Lemma elementsByTagName_parent (tag : string) (doc : Node) (d : list Path)
  (p : Path) :
  p ∈ elementsByTagName tag doc d -> is_Some (parentElement [] p doc).
Proof.
  intros Hp. apply elementsByTagName_elem in Hp as [Hp _].
  apply getElementsByTagName_parent in Hp as (q & i & -> & Hq).
  rewrite parentElement_snoc. exact Hq.
Qed.

Lemma elementsByTagName_fresh (tag : string) (doc : Node) (d : list Path)
  (p : Path) :
  p ∈ elementsByTagName tag doc d -> p ∉ d.
Proof.
  intros Hp Hd. apply elementsByTagName_elem in Hp as [_ Hp].
  rewrite (removed_self d p Hd) in Hp. discriminate Hp.
Qed.

(** *** Heading tags *)

Lemma heading_levels (m : nat) :
  1 <= m <= 5 -> m = 1 \/ m = 2 \/ m = 3 \/ m = 4 \/ m = 5.
Proof. lia. Qed.

Lemma heading_tag_inj (m k : nat) :
  1 <= m <= 5 -> 1 <= k <= 5 ->
  "h" +:+ pretty m = "h" +:+ pretty k -> m = k.
Proof.
  intros Hm Hk.
  destruct (heading_levels m Hm) as [->|[->|[->|[->| ->]]]];
    destruct (heading_levels k Hk) as [->|[->|[->|[->| ->]]]];
    vm_compute; intros H; try reflexivity; discriminate H.
Qed.

Lemma isHeadingUpTo_heading (level k : nat) :
  1 <= k <= level -> level <= 5 ->
  isHeadingUpTo level ("h" +:+ pretty k) = true.
Proof.
  intros Hk Hl.
  destruct (heading_levels level ltac:(lia)) as [->|[->|[->|[->| ->]]]];
    destruct (heading_levels k ltac:(lia)) as [->|[->|[->|[->| ->]]]];
    try lia; reflexivity.
Qed.

(** *** One level *)

Lemma level_pass (level : nat) (doc : Node) (d : list Path) :
  1 <= level <= 5 ->
  onlyAbove level doc d ->
  exists d',
    headingLoop level doc (elementsByTagName ("h" +:+ pretty level) doc d) d
    = Return d'
    /\ (forall q, q ∈ d -> q ∈ d')
    /\ (forall q, q ∈ d' -> q ∈ d \/ detachable level doc d' q)
    /\ (forall p, emptyHeading level doc p -> removed d' p = true).
Proof.
  intros Hlevel Habove.
  set (tag := "h" +:+ pretty level).
  set (l := elementsByTagName tag doc d).
  pose proof (elementsByTagName_sorted tag doc d) as Hsorted. fold l in Hsorted.
  pose proof (StronglySorted_before_NoDup l Hsorted) as Hnd.
  assert (forall p, p ∈ l -> is_Some (parentElement [] p doc)) as Hpar
    by (intros p; apply elementsByTagName_parent).
  assert (forall p, p ∈ l -> p ∉ d) as Hfresh
    by (intros p; apply elementsByTagName_fresh).
  destruct (headingLoop_returns level doc l d Hpar Hnd Hfresh)
    as (d' & Hrun & Hsub & Hchar).
  exists d'. split; [exact Hrun|]. split; [exact Hsub|]. split.
  { intros q Hq. destruct (Hchar q Hq) as [H|[Hl Hrest]]; [left; exact H|].
    right. split; [|exact Hrest].
    apply elementsByTagName_elem in Hl as [Hl _].
    apply getElementsByTagName_spec in Hl as [_ Hl]. exact Hl. }
  intros p ((a & cs & Hnode) & (parent & Hparent & Hsum) & Hnext).
  destruct (removed d p) eqn:Hrem; [exact (removed_mono d d' p Hsub Hrem)|].
  assert (p ∈ l) as Hpl.
  { apply elementsByTagName_elem. split; [|exact Hrem].
    apply getElementsByTagName_spec. split; [|eauto].
    intros ->. rewrite parentElement_root in Hparent. discriminate Hparent. }
  apply list_elem_of_split in Hpl as (l1 & l2 & Hl).
  apply removed_self.
  rewrite Hl in Hrun, Hpar, Hnd, Hfresh, Hsorted.
  apply (headingLoop_deletes level doc l1 l2 p d d' parent Hpar Hnd Hfresh
           Hparent Hsum); [|exact Hrun].
  intros d1 Hbound.
  assert (p ∉ d1) as Hpd1.
  { intros Hp. destruct (Hbound p Hp) as [H|H].
    - exact (Hfresh p ltac:(apply elem_of_app; right; left) H).
    - apply NoDup_app in Hnd as (_ & Hdisj & _). exact (Hdisj p H ltac:(left)). }
  unfold followedByNothingOrHeading.
  unfold nextElementSibling in *.
  rewrite bool_decide_eq_false_2 by exact Hpd1.
  rewrite bool_decide_eq_false_2 in Hnext by (intros H; inversion H).
  assert (forall y : Path * Node,
            isElement y.2 && negb (bool_decide (y.1 ∈ d1)) = true ->
            isElement y.2 && negb (bool_decide (y.1 ∈ ([] : list Path))) = true)
    as Hweak.
  { intros y Hy. apply andb_true_iff in Hy as [Hy _]. rewrite Hy. reflexivity. }
  destruct Hnext as [Hnone|(q & k & a' & cs' & Hk & Hsome)].
  - rewrite (find_none_weaken _ _ _ Hweak Hnone). reflexivity.
  - assert (q ∉ d1) as Hqd1.
    { pose proof (find_some _ _ Hsome) as [Hin _].
      apply list_elem_of_In, siblingsAfter_elem in Hin
        as (pp & i & j & Hp & Hq & Hij & Hnodeq).
      intros Hqin. destruct (Hbound q Hqin) as [Hqd|Hql1].
      - destruct (Habove q Hqd) as (m & a'' & cs'' & Hm & Hnm).
        rewrite Hnodeq in Hnm.
        assert ("h" +:+ pretty k = "h" +:+ pretty m) as Htag by congruence.
        apply heading_tag_inj in Htag; lia.
      - pose proof (StronglySorted_app_1_elem_of before l1 (p :: l2) q p Hsorted
                      Hql1 ltac:(left)) as Hbefore.
        rewrite Hp, Hq in Hbefore. apply before_snoc in Hbefore. lia. }
    rewrite (find_weaken _ _ _ (q, Element ("h" +:+ pretty k) a' cs')
               Hweak Hsome).
    + simpl. apply isHeadingUpTo_heading; lia.
    + simpl. rewrite bool_decide_eq_false_2 by exact Hqd1. reflexivity.
Qed.

(** *** The five levels *)

Lemma levelLoop_spec (level : nat) (doc : Node) (d : list Path) :
  level <= 5 ->
  onlyAbove level doc d ->
  exists d',
    levelLoop level doc d = Return d'
    /\ (forall q, q ∈ d -> q ∈ d')
    /\ (forall q, q ∈ d' ->
          q ∈ d \/ exists k, 1 <= k <= level /\ detachable k doc d' q)
    /\ (forall k p, 1 <= k <= level -> emptyHeading k doc p ->
          removed d' p = true).
Proof.
  revert d. induction level as [|level IH]; intros d Hle Habove.
  - exists d. split; [reflexivity|]. split; [auto|]. split; [auto|].
    intros k p Hk. lia.
  - cbn [levelLoop].
    destruct (level_pass (S level) doc d ltac:(lia) Habove)
      as (d1 & Hrun1 & Hsub1 & Hchar1 & Hdel1).
    rewrite Hrun1. simpl.
    assert (onlyAbove level doc d1) as Habove1.
    { intros q Hq. destruct (Hchar1 q Hq) as [Hqd|((a & cs & Hnode) & _)].
      - destruct (Habove q Hqd) as (m & a & cs & Hm & Hnode).
        exists m, a, cs. split; [lia | exact Hnode].
      - exists (S level), a, cs. split; [lia | exact Hnode]. }
    destruct (IH d1 ltac:(lia) Habove1) as (d' & Hrun & Hsub & Hchar & Hdel).
    exists d'. split; [exact Hrun|]. split; [auto|]. split.
    + intros q Hq. destruct (Hchar q Hq) as [Hq1|(k & Hk & Hdet)].
      * destruct (Hchar1 q Hq1) as [Hqd|(Hnode & parent & dw & Hpar & Hsum & Hdw & Hf)];
          [left; exact Hqd|].
        right. exists (S level). split; [lia|]. split; [exact Hnode|].
        exists parent, dw. split; [exact Hpar|]. split; [exact Hsum|].
        split; [|exact Hf]. intros x Hx. apply Hsub, Hdw, Hx.
      * right. exists k. split; [lia | exact Hdet].
    + intros k p Hk Hp. destruct (decide (k = S level)) as [->|Hne].
      * exact (removed_mono d1 d' p Hsub (Hdel1 p Hp)).
      * apply (Hdel k p); [lia | exact Hp].
Qed.

(** *** The document that a pass leaves *)

#[local] Set Warnings "-inconsistent-scopes".

(** The children of a pruned element. *)
Local Abbreviation pruneChildren deleted here :=
  (fix go (i : nat) (cs : list Node) : list Node :=
     match cs with
     | [] => []
     | c :: cs' =>
         if bool_decide (here ++ [i] ∈ deleted) then go (S i) cs'
         else prune deleted (here ++ [i]) c :: go (S i) cs'
     end).

Lemma prefix_snoc_iff (q l : Path) (x : nat) :
  q `prefix_of` l ++ [x] <-> q `prefix_of` l \/ q = l ++ [x].
Proof.
  split.
  - intros [k Hk]. destruct k as [|y k] using rev_ind.
    + right. rewrite app_nil_r in Hk. congruence.
    + left. rewrite app_assoc in Hk. apply app_inj_tail in Hk as [-> _].
      exists k. reflexivity.
  - intros [H| ->]; [apply prefix_app_r, H | reflexivity].
Qed.

Lemma removed_snoc (d : list Path) (here : Path) (j : nat) :
  removed d here = false ->
  removed d (here ++ [j]) = bool_decide (here ++ [j] ∈ d).
Proof.
  unfold removed. induction d as [|q d IH]; intros H.
  - cbn [existsb]. symmetry. apply bool_decide_eq_false_2.
    intros Hin. inversion Hin.
  - cbn [existsb] in *. apply orb_false_iff in H as [Hq Hd]. rewrite (IH Hd).
    apply bool_decide_eq_false_1 in Hq.
    destruct (decide (q = here ++ [j])) as [->|Hne].
    + rewrite bool_decide_eq_true_2 by reflexivity.
      rewrite (bool_decide_eq_true_2 ((here ++ [j]) ∈ (here ++ [j]) :: d)) by left.
      reflexivity.
    + rewrite bool_decide_eq_false_2.
      * simpl. apply bool_decide_ext. rewrite elem_of_cons. split; [auto|].
        intros [H|H]; [congruence | exact H].
      * intros Hpre. apply prefix_snoc_iff in Hpre as [H|H]; tauto.
Qed.

Lemma removed_app (d : list Path) (here p : Path) :
  removed d here = true -> removed d (here ++ p) = true.
Proof.
  unfold removed. rewrite !existsb_exists. intros (q & Hq & Hpre).
  exists q. split; [exact Hq|]. apply bool_decide_eq_true_1 in Hpre.
  apply bool_decide_eq_true_2, prefix_app_r, Hpre.
Qed.

Lemma filter_fmap_length {A B} (f : A -> B) (P : B -> Prop)
  `{forall x, Decision (P x)} (l : list A) :
  length (filter P (f <$> l)) = length (filter (fun x => P (f x)) l).
Proof.
  induction l as [|x l IH]; [reflexivity|].
  rewrite fmap_cons, !filter_cons. destruct (decide (P (f x))); simpl; lia.
Qed.

Lemma filter_none {A} (P : A -> Prop) `{forall x, Decision (P x)} (l : list A) :
  (forall x, x ∈ l -> ~ P x) -> filter P l = [].
Proof.
  induction l as [|x l IH]; intros Hl; [reflexivity|].
  rewrite filter_cons, decide_False by (apply Hl; left).
  apply IH. intros y Hy. apply Hl. right. exact Hy.
Qed.

Lemma tagOf_prune (d : list Path) (here : Path) (c : Node) :
  tagOf (prune d here c) = tagOf c.
Proof. destruct c; reflexivity. Qed.

(** The elements with a tag that the pruned document holds are as many as
    the elements of the document that are not out of it. *)
Lemma prune_elements (tag : string) (d : list Path) (n : Node) (here : Path) :
  removed d here = false ->
  length (getElementsByTagName tag (prune d here n))
  = length (filter (fun p => removed d (here ++ p) = false)
                   (getElementsByTagName tag n)).
Proof.
  revert here. induction n as [x|t a cs IH] using Node_induction;
    intros here Hhere; [reflexivity|].
  cbn [prune getElementsByTagName].
  match goal with
  | |- length (?w 0 (?pc 0 cs)) = length (filter ?P (?w' 0 cs)) =>
      enough (forall i i', length (w i' (pc i cs)) = length (filter P (w' i cs)))
        as Hwalk by exact (Hwalk 0 0)
  end.
  induction IH as [|c cs Hc _ IHcs]; intros i i'; [reflexivity|].
  rewrite !filter_app, !length_app.
  pose proof (removed_snoc d here i Hhere) as Hsnoc.
  destruct (bool_decide (here ++ [i] ∈ d)) eqn:Hdel.
  - rewrite (IHcs (S i) i').
    rewrite (filter_none _ (match c with
                            | Element t0 _ _ => if String.eqb t0 tag then [[i]] else []
                            | Text _ => []
                            end)).
    2:{ intros p Hp.
        assert (p = [i]) as ->.
        { destruct c as [t' a' cs'|x]; [|inversion Hp].
          destruct (String.eqb t' tag); [|inversion Hp].
          apply list_elem_of_singleton in Hp. exact Hp. }
        rewrite Hsnoc. discriminate. }
    rewrite (filter_none _ (map (cons i) (getElementsByTagName tag c))).
    2:{ intros p Hp. apply list_elem_of_fmap_1 in Hp as (p' & -> & _).
        replace (here ++ i :: p') with ((here ++ [i]) ++ p')
          by (rewrite <- app_assoc; reflexivity).
        rewrite (removed_app d (here ++ [i]) p' Hsnoc). discriminate. }
    reflexivity.
  - rewrite !length_app, length_map, (IHcs (S i) (S i')).
    rewrite (Hc (here ++ [i]) Hsnoc).
    change (map (cons i) (getElementsByTagName tag c))
      with (cons i <$> getElementsByTagName tag c).
    rewrite filter_fmap_length.
    assert (length (match prune d (here ++ [i]) c with
                    | Element t0 _ _ => if String.eqb t0 tag then [[i']] else []
                    | Text _ => []
                    end)
            = length (filter (fun p => removed d (here ++ p) = false)
                        (match c with
                         | Element t0 _ _ => if String.eqb t0 tag then [[i]] else []
                         | Text _ => []
                         end))) as ->.
    { destruct c as [t' a' cs'|x]; [|reflexivity]. cbn [prune].
      destruct (String.eqb t' tag); [|reflexivity].
      rewrite filter_cons, decide_True by exact Hsnoc. reflexivity. }
    f_equal. f_equal. f_equal. apply list_filter_iff. intros p.
    rewrite <- app_assoc. reflexivity.
Qed.

Lemma prune_elementsByTagName (tag : string) (d : list Path) (doc : Node) :
  [] ∉ d ->
  length (getElementsByTagName tag (prune d [] doc))
  = length (elementsByTagName tag doc d).
Proof.
  intros Hroot. apply (prune_elements tag d doc []).
  unfold removed. apply not_true_is_false. rewrite existsb_exists.
  intros (q & Hq & Hpre). apply bool_decide_eq_true_1, prefix_nil_inv in Hpre.
  subst q. apply Hroot, list_elem_of_In, Hq.
Qed.

Lemma prune_countElements (d : list Path) (n : Node) (here : Path) :
  countElements (prune d here n) <= countElements n.
Proof.
  revert here. induction n as [x|t a cs IH] using Node_induction;
    intros here; [reflexivity|].
  cbn [prune countElements].
  match goal with
  | |- ?g (?pc 0 cs) <= ?g' cs =>
      enough (forall i, g (pc i cs) <= g' cs) as Hgo by exact (Hgo 0)
  end.
  induction IH as [|c cs Hc _ IHcs]; intros i; [reflexivity|].
  destruct (bool_decide (here ++ [i] ∈ d)).
  - specialize (IHcs (S i)). lia.
  - specialize (IHcs (S i)). specialize (Hc (here ++ [i])).
    assert (match prune d (here ++ [i]) c with Element _ _ _ => 1 | Text _ => 0 end
            = match c with Element _ _ _ => 1 | Text _ => 0 end) as ->
      by (destruct c; reflexivity).
    lia.
Qed.


Lemma detachable_not_root (k : nat) (doc : Node) (d : list Path) :
  ~ detachable k doc d [].
Proof.
  intros (_ & parent & d1 & Hpar & _). rewrite parentElement_root in Hpar.
  discriminate Hpar.
Qed.

(** The outcome of the five levels from a fresh document. *)
Lemma levelLoop_fresh (doc : Node) :
  exists deleted,
    levelLoop 5 doc [] = Return deleted
    /\ ([] ∉ deleted)
    /\ forall q, q ∈ deleted -> exists k, 1 <= k <= 5 /\ detachable k doc deleted q.
Proof.
  destruct (levelLoop_spec 5 doc [] ltac:(lia)) as (d' & Hrun & _ & Hchar & _).
  { intros q Hq. inversion Hq. }
  assert (forall q, q ∈ d' -> exists k, 1 <= k <= 5 /\ detachable k doc d' q) as H.
  { intros q Hq. destruct (Hchar q Hq) as [Hnil|H]; [inversion Hnil | exact H]. }
  exists d'. split; [exact Hrun|]. split; [|exact H].
  intros Hroot. destruct (H [] Hroot) as (k & _ & Hdet).
  exact (detachable_not_root k doc d' Hdet).
Qed.

Lemma deleteLoop_elem (doc : Node) (l d : list Path) (q : Path) :
  q ∈ deleteLoop None doc l d <-> q ∈ l \/ q ∈ d.
Proof.
  revert d. induction l as [|p l IH]; intros d.
  - simpl. split; [auto | intros [H|H]; [inversion H | exact H]].
  - cbn [deleteLoop]. rewrite IH, !elem_of_cons. tauto.
Qed.

End DomFacts.

(** ** Media treatment *)

Module MediaFacts.

Import Media.

Ltac unfold_bind :=
  unfold mbind, completion_bind, mret, completion_ret, ofOption in *.

(** C7 (the code at the failing input).  For a video without [<source>]
    child, outside the [nopic]/[novid]/[nodet] modes, [treatVideo] throws
    (at the latest when it reads the [src] of the first source, which is
    undefined), whatever its poster; the element is not deleted and
    [treatMedias] throws as a whole for any document that has such a video. *)
Theorem treatVideo_without_source (env : Env) (dump : Dump) (articleId : string)
  (videoEl : VideoEl) (videos : list VideoEl) (imgs : list ImgEl)
  (srcCache : gset string) :
  (forall cmp, sortBy env cmp [] = []) ->
  sources videoEl = [] ->
  nopic dump || novid dump || nodet dump = false ->
  videoEl ∈ videos ->
  treatVideo env dump srcCache articleId videoEl = Throw
  /\ treatMedias env dump articleId videos imgs = Throw.
Proof.
  intros Hsort Hsrc Hmode Hin.
  assert (forall cache, treatVideo env dump cache articleId videoEl = Throw) as Hthrow.
  { intros cache. unfold treatVideo. unfold_bind.
    destruct (getFullUrl env (webUrlHost env) (poster videoEl)); [|reflexivity].
    destruct (getMediaBase env s true); [|reflexivity].
    rewrite Hmode, Hsrc, Hsort.
    destruct (pushOnce cache [] s). reflexivity. }
  split; [apply Hthrow|].
  assert (forall cache deps,
             treatVideos env dump articleId videos cache deps = Throw) as Hvs.
  { induction videos as [|v videos IH]; intros cache deps; [inversion Hin|].
    simpl. unfold_bind.
    apply elem_of_cons in Hin as [<-|Hin].
    - rewrite Hthrow. reflexivity.
    - destruct (treatVideo env dump cache articleId v) as [|[[c r] o]];
        [reflexivity|].
      destruct r; [|reflexivity]. rewrite (IH Hin). reflexivity. }
  unfold treatMedias. unfold_bind. rewrite Hvs. reflexivity.
Qed.

Lemma treatVideo_without_source_witness :
  treatVideo exampleEnv exampleDump ∅ "London" emptyVideo = Throw
  /\ treatMedias exampleEnv exampleDump "London" [emptyVideo] [londonImg] = Throw.
Proof.
  apply (treatVideo_without_source exampleEnv exampleDump "London" emptyVideo
           [emptyVideo] [londonImg] ∅).
  - reflexivity.
  - reflexivity.
  - reflexivity.
  - constructor.
Defined.

Lemma Emitted_refl (cache : gset string) : Emitted cache cache [].
Proof. unfold Emitted. split; [set_solver|]. split; [constructor|]. set_solver. Qed.

Lemma Emitted_trans (c c' c'' : gset string) (n n' : list string) :
  Emitted c c' n -> Emitted c' c'' n' -> Emitted c c'' (n ++ n').
Proof.
  intros (Hs & Hn & Hi) (Hs' & Hn' & Hi'). unfold Emitted.
  split; [set_solver|]. split.
  - apply NoDup_app. split; [exact Hn|]. split; [|exact Hn'].
    intros u Hu Hu'. destruct (Hi u Hu) as [_ Hc']. destruct (Hi' u Hu') as [Hnc' _].
    contradiction.
  - intros u [Hu|Hu]%elem_of_app.
    + destruct (Hi u Hu). set_solver.
    + destruct (Hi' u Hu). set_solver.
Qed.

Lemma pushOnce_Emitted (cache cache' : gset string) (deps deps' : list string)
  (u : string) :
  pushOnce cache deps u = (cache', deps') ->
  exists new, deps' = deps ++ new /\ Emitted cache cache' new.
Proof.
  unfold pushOnce. case_bool_decide as Hu; intros [= <- <-].
  - exists []. rewrite app_nil_r. split; [reflexivity | apply Emitted_refl].
  - exists [u]. split; [reflexivity|]. unfold Emitted.
    split; [set_solver|]. split; [apply NoDup_singleton|]. set_solver.
Qed.

Lemma treatVideo_Emitted (env : Env) (dump : Dump) (articleId : string)
  (videoEl : VideoEl) (cache cache' : gset string) (ds : list string)
  (out : VideoOutcome) :
  treatVideo env dump cache articleId videoEl = Return (cache', Some ds, out) ->
  Emitted cache cache' ds.
Proof.
  unfold treatVideo. unfold_bind. intros H.
  destruct (getFullUrl env (webUrlHost env) (poster videoEl)) as [pu|];
    [|discriminate H].
  destruct (getMediaBase env pu true) as [pb|]; [|discriminate H].
  destruct (nopic dump || novid dump || nodet dump).
  { injection H as <- <-. apply Emitted_refl. }
  destruct (pushOnce cache [] pu) as [c1 d1] eqn:E1.
  destruct (sortBy env (widthXHeightSorter env) (sources videoEl)) as [|s0 ss];
    [discriminate H|].
  destruct (getFullUrl env (webUrlHost env) (src s0)) as [su|]; [|discriminate H].
  destruct (getMediaBase env su true) as [fb|]; [|discriminate H].
  destruct (negb (Js.truthy fb)); [discriminate H|].
  destruct (pushOnce c1 d1 su) as [c2 d2] eqn:E2.
  injection H as <- <- _.
  apply pushOnce_Emitted in E1 as (n1 & -> & H1).
  apply pushOnce_Emitted in E2 as (n2 & -> & H2).
  simpl. eapply Emitted_trans; eassumption.
Qed.

Lemma treatImage_Emitted (env : Env) (dump : Dump) (articleId : string)
  (img : ImgEl) (cache cache' : gset string) (ds : list string)
  (out : ImgOutcome) :
  treatImage env dump cache articleId img = Return (cache', ds, out) ->
  Emitted cache cache' ds.
Proof.
  unfold treatImage. unfold_bind. intros H.
  destruct (_ && _ && _).
  - destruct (match imgLink img with Some _ => _ | None => _ end) as [unw det].
    destruct (getFullUrl env (webUrlHost env) (imgSrc img)) as [u|];
      [|discriminate H].
    destruct (getMediaBase env u true) as [b|]; simpl in H.
    + destruct (pushOnce cache [] u) as [c1 d1] eqn:E1.
      injection H as <- <- _.
      apply pushOnce_Emitted in E1 as (n1 & -> & H1). exact H1.
    + injection H as <- <- _. apply Emitted_refl.
  - injection H as <- <- _. apply Emitted_refl.
Qed.

Lemma treatVideos_Emitted (env : Env) (dump : Dump) (articleId : string)
  (videos : list VideoEl) (cache cache' : gset string) (deps deps' : list string)
  (outs : list VideoOutcome) :
  treatVideos env dump articleId videos cache deps = Return (cache', deps', outs) ->
  exists new, deps' = deps ++ new /\ Emitted cache cache' new.
Proof.
  revert cache deps cache' deps' outs.
  induction videos as [|v videos IH]; intros cache deps cache' deps' outs H.
  - injection H as <- <- _. exists []. rewrite app_nil_r.
    split; [reflexivity | apply Emitted_refl].
  - simpl in H. unfold_bind.
    destruct (treatVideo env dump cache articleId v) as [|[[c1 r] o]] eqn:Ev;
      [discriminate H|].
    destruct r as [ds|]; [|discriminate H].
    destruct (treatVideos env dump articleId videos c1 (deps ++ ds))
      as [|[[c2 d2] os]] eqn:Er; [discriminate H|].
    injection H as <- <- _.
    apply treatVideo_Emitted in Ev.
    apply IH in Er as (n & -> & Hn).
    exists (ds ++ n). rewrite app_assoc. split; [reflexivity|].
    eapply Emitted_trans; eassumption.
Qed.

Lemma treatImages_Emitted (env : Env) (dump : Dump) (articleId : string)
  (imgs : list ImgEl) (cache cache' : gset string) (deps deps' : list string)
  (outs : list ImgOutcome) :
  treatImages env dump articleId imgs cache deps = Return (cache', deps', outs) ->
  exists new, deps' = deps ++ new /\ Emitted cache cache' new.
Proof.
  revert cache deps cache' deps' outs.
  induction imgs as [|i imgs IH]; intros cache deps cache' deps' outs H.
  - injection H as <- <- _. exists []. rewrite app_nil_r.
    split; [reflexivity | apply Emitted_refl].
  - simpl in H. unfold_bind.
    destruct (treatImage env dump cache articleId i) as [|[[c1 ds] o]] eqn:Ev;
      [discriminate H|].
    destruct (treatImages env dump articleId imgs c1 (deps ++ ds))
      as [|[[c2 d2] os]] eqn:Er; [discriminate H|].
    injection H as <- <- _.
    apply treatImage_Emitted in Ev.
    apply IH in Er as (n & -> & Hn).
    exists (ds ++ n). rewrite app_assoc. split; [reflexivity|].
    eapply Emitted_trans; eassumption.
Qed.

(** C10.  Whenever the media treatment of a document completes, the list of
    media dependencies it emits has no URL twice: the video loop and the
    image loop share one [srcCache], and a URL is pushed only when it is not
    in the cache yet. *)
Theorem mediaDependencies_NoDup (env : Env) (dump : Dump) (articleId : string)
  (videos : list VideoEl) (imgs : list ImgEl) (deps : list string)
  (vouts : list VideoOutcome) (iouts : list ImgOutcome) :
  treatMedias env dump articleId videos imgs = Return (deps, vouts, iouts) ->
  NoDup deps.
Proof.
  unfold treatMedias. unfold_bind. intros H.
  destruct (treatVideos env dump articleId videos ∅ []) as [|[[c1 d1] vo]] eqn:Ev;
    [discriminate H|].
  destruct (treatImages env dump articleId imgs c1 d1) as [|[[c2 d2] io]] eqn:Ei;
    [discriminate H|].
  injection H as <- _ _.
  apply treatVideos_Emitted in Ev as (n1 & -> & H1).
  apply treatImages_Emitted in Ei as (n2 & -> & H2).
  simpl. destruct (Emitted_trans _ _ _ _ _ H1 H2) as (_ & Hnd & _). exact Hnd.
Qed.

Lemma mediaDependencies_NoDup_witness :
  exists deps vouts iouts,
    treatMedias exampleEnv exampleDump "London" [londonVideo] [londonImg; londonImg]
    = Return (deps, vouts, iouts)
    /\ length deps = 2
    /\ NoDup deps.
Proof.
  eexists _, _, _. split; [vm_compute; reflexivity|]. split; [reflexivity|].
  eapply (mediaDependencies_NoDup exampleEnv exampleDump "London"
            [londonVideo] [londonImg; londonImg]).
  vm_compute. reflexivity.
Defined.

End MediaFacts.

(** ** Downloader: slots, retries and their bounds *)

Module RequestsFacts.

Import Downloader Requests DownloaderFacts.

(** X1.  With a positive [speed], whatever the sequence of claims, releases
    and responses, the number of claimed slots never exceeds [speed * 10],
    and neither does [maxActiveRequests]. *)
Theorem activeRequests_bounded (speed : Z) (evs : list Event) :
  (1 <= speed)%Z ->
  (activeRequests (run speed evs) <= speed * 10)%Z
  /\ (maxActiveRequests (run speed evs) <= speed * 10)%Z.
Proof.
  intros Hs. induction evs as [|ev evs IH] using rev_ind.
  - unfold run. simpl. lia.
  - rewrite run_snoc. destruct IH as [Ha Hm].
    pose proof (run_max_ge_1 speed evs Hs) as Hge.
    pose proof (step_max_bounds (run speed evs) ev Hge) as Hb.
    split; [|lia].
    destruct ev as [| |e|e|]; simpl; unfold claimRequest, errHandler.
    + destruct (Z.ltb_spec (activeRequests (run speed evs))
                  (maxActiveRequests (run speed evs))); simpl; lia.
    + lia.
    + destruct (hasStatus e 429); simpl; lia.
    + destruct (hasStatus e 429); simpl; lia.
    + lia.
Qed.

Lemma activeRequests_bounded_witness :
  (activeRequests (run 1%Z (replicate 25 EvClaim)) <= 10)%Z.
Proof.
  apply (activeRequests_bounded 1%Z (replicate 25 EvClaim)). lia.
Defined.

Lemma retryIf_after (st : State) (es : list AxiosError) :
  fold_left step (EvErrHandler <$> es) st
  = fold_left (fun s e => (errHandler (A := unit) s e).1) es st.
Proof.
  revert st. induction es as [|e es IH]; intros st; [reflexivity|].
  simpl. apply IH.
Qed.

Lemma backoffCall_content_success {A B} (compress : A -> option B)
  (backoffs : nat) (es : list AxiosError) (a : A) (b : B)
  (rest : list (Settled A)) (st : State) :
  Forall (fun e => retryIf e = true) es ->
  length es <= backoffs ->
  compress a = Some b ->
  backoffCall (getContentCb compress) backoffs st
    ((Rejected <$> es) ++ Resolved a :: rest)
  = (fold_left step (EvErrHandler <$> es) st, Completed b, S (length es), rest).
Proof.
  intros Hes. revert backoffs st.
  induction Hes as [|e es He _ IH]; intros backoffs st Hlen Hc.
  - rewrite backoffCall_unfold. simpl. rewrite Hc. reflexivity.
  - destruct backoffs as [|k]; [simpl in Hlen; lia|].
    rewrite backoffCall_unfold. simpl. rewrite He.
    rewrite (IH k _ ltac:(simpl in Hlen; lia) Hc). reflexivity.
Qed.

(** X2.  [downloadContent] retries every rejection for which [retryIf]
    holds: after up to seven such rejections, a response that resolves
    completes the call with its (optimised) body; one request was issued per
    outcome consumed, each 429 among the rejections lowered
    [maxActiveRequests], and the slot is released. *)
Theorem downloadContent_retries_until_success {A B} (compress : A -> option B)
  (es : list AxiosError) (a : A) (b : B) (rest : list (Settled A)) (st : State) :
  Forall (fun e => retryIf e = true) es ->
  length es <= failAfter ->
  compress a = Some b ->
  downloadContent compress st ((Rejected <$> es) ++ Resolved a :: rest)
  = (releaseRequest (fold_left step (EvErrHandler <$> es) st),
     Completed b, S (length es), rest).
Proof.
  intros Hes Hlen Hc. unfold downloadContent.
  rewrite (backoffCall_content_success compress failAfter es a b rest st Hes Hlen Hc).
  reflexivity.
Qed.

Lemma downloadContent_retries_until_success_witness :
  let e503 := {| code := None; responseStatus := Some 503%Z |} in
  let e429 := {| code := None; responseStatus := Some 429%Z |} in
  downloadContent (B := string) Some (constructor 1%Z)
    [Rejected e503; Rejected e429; Resolved "body"; Resolved "next"]
  = (releaseRequest (setMax (constructor 1%Z) 9%Z), Completed "body", 3, [Resolved "next"]).
Proof.
  exact (downloadContent_retries_until_success (B := string) Some
           [{| code := None; responseStatus := Some 503%Z |};
            {| code := None; responseStatus := Some 429%Z |}]
           "body" "body" [Resolved "next"] (constructor 1%Z)
           ltac:(repeat constructor) ltac:(vm_compute; lia) eq_refl).
Defined.

Lemma backoffCall_content_settles {A B} (compress : A -> option B)
  (backoffs : nat) (st : State) (net : list (Settled A)) :
  backoffs < length net ->
  let r := backoffCall (getContentCb compress) backoffs st net in
  r.1.1.2 <> Pending
  /\ length r.2 + r.1.2 = length net.
Proof.
  revert st net. induction backoffs as [|k IH]; intros st net Hlen;
    (destruct net as [|o net]; [simpl in Hlen; lia|]);
    rewrite backoffCall_unfold; simpl.
  - destruct o as [a|e]; simpl.
    + destruct (compress a); simpl; [split; [discriminate | lia]|].
      split; [discriminate | lia].
    + destruct (retryIf e); simpl; split; (discriminate || lia).
  - destruct o as [a|e]; simpl.
    + destruct (compress a); simpl; [split; [discriminate | lia]|].
      specialize (IH st net ltac:(simpl in Hlen; lia)).
      destruct (backoffCall (getContentCb compress) k st net) as [[[st'' r] n'] net''].
      simpl in *. destruct IH. split; [assumption | lia].
    + destruct (retryIf e); simpl; [|split; [discriminate | lia]].
      specialize (IH (errHandler (A := B) st e).1 net ltac:(simpl in Hlen; lia)).
      unfold errHandler in IH. simpl in IH.
      destruct (backoffCall (getContentCb compress) k _ net) as [[[st'' r] n'] net''].
      simpl in *. destruct IH. split; [assumption | lia].
Qed.

(** X3.  [downloadContent] issues at most eight requests (one call and the
    seven retries of [failAfter]); when the network answers that many, the
    call settles (with a value or with the last error) and the outcomes it
    did not consume are exactly those after the requests it issued. *)
Theorem downloadContent_settles {A B} (compress : A -> option B) (st : State)
  (net : list (Settled A)) :
  failAfter < length net ->
  let r := downloadContent compress st net in
  r.1.2 <= 8
  /\ r.1.1.2 <> Pending
  /\ r.2 = drop r.1.2 net.
Proof.
  intros Hlen r. subst r. unfold downloadContent.
  pose proof (backoffCall_bound (getContentCb compress) failAfter st net) as Hb.
  pose proof (backoffCall_content_settles compress failAfter st net Hlen) as [Hp Hl].
  assert (forall k s n,
            (backoffCall (getContentCb compress) k s n).2
            = drop (backoffCall (getContentCb compress) k s n).1.2 n) as Hd.
  { clear. induction k as [|k IH]; intros s n; rewrite backoffCall_unfold;
      (destruct n as [|o n]; [reflexivity|]); simpl.
    - destruct o as [a|e]; simpl; [destruct (compress a); reflexivity|].
      destruct (retryIf e); reflexivity.
    - destruct o as [a|e]; simpl.
      + destruct (compress a); simpl; [reflexivity|].
        specialize (IH s n).
        destruct (backoffCall (getContentCb compress) k s n) as [[[s'' r] n'] net''].
        exact IH.
      + destruct (retryIf e); simpl; [|reflexivity].
        specialize (IH (errHandler (A := B) s e).1 n). unfold errHandler in IH.
        simpl in IH.
        destruct (backoffCall (getContentCb compress) k _ n) as [[[s'' r] n'] net''].
        exact IH. }
  specialize (Hd failAfter st net).
  destruct (backoffCall (getContentCb compress) failAfter st net) as [[[st' r] n] net'].
  simpl in *. unfold failAfter in Hb.
  destruct r; simpl; repeat split; try lia; try discriminate; try exact Hd.
  congruence.
Qed.

Lemma downloadContent_settles_witness :
  let e := {| code := None; responseStatus := Some 500%Z |} in
  (downloadContent (B := unit) Some (constructor 1%Z) (replicate 9 (Rejected e))).1.1.2
  <> Pending.
Proof.
  apply (downloadContent_settles (B := unit) Some (constructor 1%Z)
           (replicate 9 (Rejected {| code := None; responseStatus := Some 500%Z |}))).
  vm_compute. lia.
Defined.

Lemma lowered_S (n : nat) (st : State) :
  lowered (S n) st
  = lowered n (setMax st (newMaxActiveRequests (maxActiveRequests st))).
Proof.
  unfold lowered.
  exact (Nat.iter_succ_r n
           (fun s => setMax s (newMaxActiveRequests (maxActiveRequests s))) st).
Qed.

(** X4.  On the JSON path a 429 is answered by re-issuing the request at
    once, inside [getJSONCb] and outside the back-off call: after any number
    [n] of 429 responses, a response that resolves completes the call; [n + 1]
    requests were issued, the back-off call saw a single invocation, and
    [maxActiveRequests] was lowered [n] times. *)
Theorem getJSON_429_unbounded {A} (n : nat) (e : AxiosError) (a : A)
  (rest : list (Settled A)) (st : State) :
  hasStatus e 429 = true ->
  getJSONCb st (replicate n (Rejected e) ++ Resolved a :: rest)
  = (lowered n st, Value a, S n, rest)
  /\ getJSON st (replicate n (Rejected e) ++ Resolved a :: rest)
     = (releaseRequest (lowered n st), Completed a, 1, rest).
Proof.
  intros H429.
  assert (getJSONCb st (replicate n (Rejected e) ++ Resolved a :: rest)
          = (lowered n st, Value a, S n, rest)) as Hcb.
  { revert st. induction n as [|n IH]; intros st; [reflexivity|].
    simpl replicate. simpl app. simpl getJSONCb. rewrite H429, IH, lowered_S.
    reflexivity. }
  split; [exact Hcb|].
  unfold getJSON. rewrite backoffCall_unfold, Hcb. reflexivity.
Qed.

Lemma getJSON_429_unbounded_witness :
  getJSONCb (constructor 1%Z)
    (replicate 20 (Rejected {| code := None; responseStatus := Some 429%Z |})
     ++ [Resolved "json"])
  = (lowered 20 (constructor 1%Z), Value "json", 21, []).
Proof.
  apply (getJSON_429_unbounded 20 {| code := None; responseStatus := Some 429%Z |}
           "json" [] (constructor 1%Z)).
  reflexivity.
Defined.

Lemma getJSONs_lost {A} (e : AxiosError) (nets : list (list (Settled A)))
  (st : State) :
  hasStatus e 429 = false ->
  hasStatus e 404 = false ->
  Forall (fun net => exists rest, net = Rejected e :: rest) nets ->
  (activeRequests st + Z.of_nat (length nets) <= maxActiveRequests st)%Z ->
  getJSONs st nets
  = Some {| speed := speed st; maxActiveRequests := maxActiveRequests st;
            activeRequests := activeRequests st + Z.of_nat (length nets) |}.
Proof.
  intros H429 H404 Hnets. revert st.
  induction Hnets as [|net nets (rest & ->) _ IH]; intros st Hroom.
  - simpl. rewrite Z.add_0_r. destruct st; reflexivity.
  - simpl getJSONs. unfold getJSONWithClaim, claimRequest.
    destruct (Z.ltb_spec (activeRequests st) (maxActiveRequests st)) as [_|Hge];
      [|simpl length in Hroom; lia].
    simpl.
    unfold getJSON. rewrite backoffCall_unfold. simpl. rewrite H429, H404. simpl.
    rewrite IH; simpl; [|simpl length in Hroom; lia].
    f_equal. f_equal. simpl length. lia.
Qed.

(** X5.  A JSON request that ends in a rejection other than 429 and 404
    keeps its slot for ever: after [speed * 10] such requests on a fresh
    Downloader every slot is taken, and the next [getJSON] cannot claim one,
    whatever the network would answer. *)
Theorem getJSON_slots_exhausted {A} (speed : Z) (e : AxiosError)
  (nets : list (list (Settled A))) (net : list (Settled A)) :
  (1 <= speed)%Z ->
  hasStatus e 429 = false ->
  hasStatus e 404 = false ->
  Forall (fun net => exists rest, net = Rejected e :: rest) nets ->
  Z.of_nat (length nets) = (speed * 10)%Z ->
  exists st,
    getJSONs (constructor speed) nets = Some st
    /\ activeRequests st = maxActiveRequests st
    /\ getJSONWithClaim st net = None.
Proof.
  intros Hs H429 H404 Hnets Hlen.
  eexists. split; [|split].
  - apply (getJSONs_lost e nets (constructor speed) H429 H404 Hnets).
    simpl. lia.
  - simpl. lia.
  - unfold getJSONWithClaim, claimRequest. simpl.
    destruct (Z.ltb_spec (0 + Z.of_nat (length nets)) (speed * 10)); [lia|].
    reflexivity.
Qed.

Lemma getJSON_slots_exhausted_witness :
  exists st,
    getJSONs (A := string) (constructor 1%Z)
      (replicate 10 [Rejected {| code := None; responseStatus := Some 500%Z |}])
    = Some st
    /\ getJSONWithClaim st [Resolved "json"] = None.
Proof.
  destruct (getJSON_slots_exhausted 1%Z {| code := None; responseStatus := Some 500%Z |}
              (replicate 10 [Rejected {| code := None; responseStatus := Some 500%Z |}])
              [Resolved "json"])
    as (st & H1 & _ & H2).
  - lia.
  - reflexivity.
  - reflexivity.
  - repeat constructor; eexists; reflexivity.
  - reflexivity.
  - exists st. split; assumption.
Defined.

End RequestsFacts.

(** ** URL prefix cache: what [serializeUrl] maintains *)

Module UrlCacheShapeFacts.

Import UrlCache UrlCacheShape UrlCacheFacts.

Lemma hasChar_app (c : ascii) (s t : string) :
  hasChar c (s +:+ t) = hasChar c s || hasChar c t.
Proof.
  induction s as [|a s IH]; [reflexivity|].
  change (String a s +:+ t) with (String a (s +:+ t)). simpl.
  rewrite IH, orb_assoc. reflexivity.
Qed.

Lemma pretty_N_go_no_underscore (x : N) (s : string) :
  hasChar "_" (pretty_N_go x s) = hasChar "_" s.
Proof.
  revert s. induction (N.lt_wf_0 x) as [x _ IH]; intros s.
  destruct (decide (x = 0)%N) as [->|Hx]; [reflexivity|].
  rewrite pretty_N_go_step by lia.
  rewrite IH by (apply N.div_lt; lia).
  simpl. unfold pretty_N_char. repeat case_match; reflexivity.
Qed.

Lemma pretty_no_underscore (n : nat) : hasChar "_" (pretty n) = false.
Proof.
  unfold pretty, pretty_nat, pretty, pretty_N.
  case_decide; [reflexivity|]. apply pretty_N_go_no_underscore.
Qed.

Lemma lookup_app_l (cache : Cache) (e : string * string) (k v : string) :
  lookup cache k = Some v -> lookup (cache ++ [e]) k = Some v.
Proof.
  unfold lookup. induction cache as [|[k' v'] cache IH]; [discriminate|].
  simpl. destruct (String.eqb k' k); [auto|]. exact IH.
Qed.

Lemma lookup_app_r (cache : Cache) (k v : string) :
  k ∉ cache.*1 -> lookup (cache ++ [(k, v)]) k = Some v.
Proof.
  unfold lookup. induction cache as [|[k' v'] cache IH]; intros Hk.
  - simpl. rewrite String.eqb_refl. reflexivity.
  - simpl. rewrite fmap_cons in Hk. apply not_elem_of_cons in Hk as [Hne Hk].
    simpl in Hne. destruct (String.eqb_spec k' k); [congruence|]. apply IH, Hk.
Qed.

Lemma lookup_of_entry (cache : Cache) (k v : string) :
  NoDup cache.*1 -> (k, v) ∈ cache -> lookup cache k = Some v.
Proof.
  unfold lookup. induction cache as [|[k' v'] cache IH]; intros Hnd Hin.
  - inversion Hin.
  - rewrite fmap_cons in Hnd. apply NoDup_cons in Hnd as [Hnotin Hnd]. simpl.
    destruct (String.eqb_spec k' k) as [->|Hne].
    + apply elem_of_cons in Hin as [[= <-]|Hin]; [reflexivity|].
      exfalso. apply Hnotin. apply list_elem_of_fmap. exists (k, v). auto.
    + apply elem_of_cons in Hin as [[= -> ->]|Hin]; [congruence|]. auto.
Qed.

Lemma findByValue_Some (cache : Cache) (part k v : string) :
  findByValue cache part = Some (k, v) -> (k, part) ∈ cache /\ v = part.
Proof.
  unfold findByValue. intros H. apply List.find_some in H as [Hin Hv].
  apply String.eqb_eq in Hv. simpl in Hv. subst v.
  split; [apply list_elem_of_In; exact Hin | reflexivity].
Qed.

Lemma findByValue_None (cache : Cache) (part : string) :
  findByValue cache part = None -> part ∉ cache.*2.
Proof.
  unfold findByValue. intros H Hin.
  apply list_elem_of_fmap in Hin as ([k v] & -> & Hin).
  apply list_elem_of_In in Hin.
  pose proof (List.find_none _ _ H _ Hin) as Hf. simpl in Hf.
  rewrite String.eqb_refl in Hf. discriminate.
Qed.

Lemma wellFormed_keys (cache : Cache) :
  wellFormed cache ->
  NoDup cache.*1
  /\ (pretty (length cache + 1) ∉ cache.*1)
  /\ (forall k, k ∈ cache.*1 -> hasChar "_" k = false).
Proof.
  intros [Hk _]. rewrite Hk. split; [|split].
  - apply (NoDup_fmap_2 _). apply NoDup_seq.
  - intros Hin. apply list_elem_of_fmap in Hin as (i & Hi & Hin).
    apply (inj pretty) in Hi. subst i. apply elem_of_seq in Hin. lia.
  - intros k Hin. apply list_elem_of_fmap in Hin as (i & -> & _).
    apply pretty_no_underscore.
Qed.

(** What one call does to the cache, under the invariant. *)
Lemma serializeUrl_shape (urlPath : string -> option string) (cache : Cache)
  (url : string) :
  wellFormed cache ->
  let pathStr := default "null" (urlPath url) in
  let part := Js.replaceFirst pathStr "" url in
  let r := serializeUrl urlPath cache url in
  wellFormed r.2
  /\ (r.2 = cache \/ r.2 = cache ++ [(pretty (length cache + 1), part)])
  /\ exists cacheId,
       r.1 = "_" +:+ cacheId +:+ "_" +:+ pathStr
       /\ hasChar "_" cacheId = false
       /\ lookup r.2 cacheId = Some part.
Proof.
  intros Hwf pathStr part r.
  destruct (wellFormed_keys cache Hwf) as (Hnd & Hfresh & Hunder).
  subst r. unfold serializeUrl.
  assert (match urlPath url with Some p => p | None => "null" end = pathStr) as ->
    by reflexivity.
  fold part. destruct (findByValue cache part) as [[k v]|] eqn:Hf; simpl.
  - apply findByValue_Some in Hf as [Hin ->].
    split; [exact Hwf|]. split; [left; reflexivity|].
    exists k. split; [reflexivity|]. split.
    + apply Hunder. apply list_elem_of_fmap. exists (k, part). auto.
    + apply lookup_of_entry; assumption.
  - apply findByValue_None in Hf. split; [|split; [right; reflexivity|]].
    + destruct Hwf as [Hk Hv]. split.
      * rewrite fmap_app, length_app, Hk. simpl.
        rewrite (seq_app (length cache) 1 1), fmap_app. simpl.
        do 3 f_equal. lia.
      * rewrite fmap_app. apply NoDup_app. split; [exact Hv|].
        split; [|apply NoDup_singleton].
        intros x Hx Hx'. apply list_elem_of_singleton in Hx'. simpl in Hx'.
        subst x. contradiction.
    + exists (pretty (length cache + 1)). split; [reflexivity|].
      split; [apply pretty_no_underscore|]. apply lookup_app_r, Hfresh.
Qed.

(** X6.  [serializeUrl] keeps the cache well formed: starting from a cache
    whose ids are the numerals [1..n] with pairwise distinct prefixes, the
    cache after the call is again of that shape, it is the old cache or the
    old cache with one entry appended, and every id registered before still
    names the same prefix. *)
Theorem serializeUrl_keeps_cache (urlPath : string -> option string)
  (cache : Cache) (url : string) :
  wellFormed cache ->
  let cache' := (serializeUrl urlPath cache url).2 in
  wellFormed cache'
  /\ (length cache' = length cache \/ length cache' = S (length cache))
  /\ forall cacheId prefix,
       lookup cache cacheId = Some prefix -> lookup cache' cacheId = Some prefix.
Proof.
  intros Hwf cache'. subst cache'.
  destruct (serializeUrl_shape urlPath cache url Hwf) as (Hwf' & Hcases & _).
  split; [exact Hwf'|].
  destruct Hcases as [->| ->].
  - split; [left; reflexivity | auto].
  - split; [right; rewrite length_app; simpl; lia|].
    intros cacheId prefix Hl. apply lookup_app_l, Hl.
Qed.

Lemma serializeUrl_keeps_cache_witness :
  wellFormed (serializeUrl httpPath exampleCache "https://fr.wikipedia.org/w/api.php").2.
Proof.
  apply (serializeUrl_keeps_cache httpPath exampleCache
           "https://fr.wikipedia.org/w/api.php").
  split; [reflexivity|]. repeat constructor; set_solver.
Defined.

(** X7.  Serialising then deserialising gives the URL back: when the URL is
    [c p] with [p] the path the parser finds and [p] occurring in it at its
    end only, [deserializeUrl], run on the cache that [serializeUrl] left,
    maps the serialised form to the URL. *)
Theorem deserialize_serialize (urlPath : string -> option string) (cache : Cache)
  (c p : string) :
  wellFormed cache ->
  urlPath (c +:+ p) = Some p ->
  (forall k, k < String.length c ->
             String.prefix p (Js.dropStr k (c +:+ p)) = false) ->
  let r := serializeUrl urlPath cache (c +:+ p) in
  deserializeUrl r.2 r.1 = c +:+ p.
Proof.
  intros Hwf Hpath Hocc r. subst r.
  destruct (serializeUrl_shape urlPath cache (c +:+ p) Hwf)
    as (_ & _ & cacheId & Hx & Hid & Hl).
  rewrite Hpath in Hx, Hl. simpl in Hx, Hl.
  rewrite (replaceFirst_suffix c p Hocc) in Hl.
  rewrite Hx. apply deserializeUrl_serialized; assumption.
Qed.

Lemma deserialize_serialize_witness :
  let r := serializeUrl httpPath exampleCache
             "https://fr.wikipedia.org/w/api.php?action=query" in
  r.1 = "_2_/w/api.php?action=query"
  /\ deserializeUrl r.2 r.1 = "https://fr.wikipedia.org/w/api.php?action=query".
Proof.
  split; [reflexivity|].
  apply (deserialize_serialize httpPath exampleCache "https://fr.wikipedia.org"
           "/w/api.php?action=query").
  - split; [reflexivity|]. repeat constructor; set_solver.
  - reflexivity.
  - intros k Hk. do 24 (destruct k as [|k]; [reflexivity|]). simpl in Hk. lia.
Defined.

End UrlCacheShapeFacts.

(** ** Renderer: what the shards hold, and the desktop path *)

Module ShardFacts.

Import Renderer RendererExamples RendererFacts.

Lemma concat_slices {A} (n : nat) (l : list A) :
  length l <= 200 * n ->
  concat ((fun i => take 200 (drop (i * 200) l)) <$> seq 0 n) = l.
Proof.
  revert l. induction n as [|n IH]; intros l Hlen.
  - destruct l; [reflexivity | simpl in Hlen; lia].
  - rewrite <- cons_seq, fmap_cons. simpl concat.
    rewrite <- fmap_S_seq, <- list_fmap_compose.
    etrans; [|apply (take_drop 200 l)]. f_equal.
    rewrite <- (IH (drop 200 l)) by (rewrite length_drop; lia).
    f_equal. apply list_fmap_ext. intros _ i _. simpl. rewrite drop_drop.
    do 2 f_equal; lia.
Qed.

(** X8.  On the mobile path, a category with more than 200 sub-categories is
    stored shard by shard without loss: the sub-category lists stored under
    the shard ids, concatenated in shard order, are the original list; every
    stored list has at most 200 entries; and the entry of the category itself
    is overwritten by shard 0, so that the store keeps only its first 200
    sub-categories under the original id. *)
Theorem shards_partition_subCategories (env : Env) (json : Json)
  (aid mainPage : string) (store : gmap string ArticleDetail) (d : ArticleDetail) :
  store !! aid = Some d ->
  aid <> mainPage ->
  (forall id d', is_Some (renderMCSArticle env json id d')) ->
  200 < length (subCategoriesOrEmpty d) ->
  exists result store',
    renderArticle env json aid mainPage true store = Return (result, store')
    /\ concat ((fun i => default [] (store' !! shardId aid i ≫= subCategories))
                 <$> seq 0 (length result))
       = subCategoriesOrEmpty d
    /\ (forall i sd, i < length result -> store' !! shardId aid i = Some sd ->
          length (default [] (subCategories sd)) <= 200)
    /\ (store' !! aid ≫= subCategories)
       = Some (take 200 (subCategoriesOrEmpty d)).
Proof.
  intros Hd Hmain Htot HN.
  unfold renderArticle. rewrite (mobile_path _ _ Hmain), Hd. unfold_bind.
  set (N := length (subCategoriesOrEmpty d)) in *.
  set (n := numberOfPagesToSplitInto N).
  destruct (renderShards_total env json aid d n n 0 store [] Htot)
    as (out & store' & Hrun).
  exists out, store'. split; [exact Hrun|].
  apply renderShards_inv in Hrun as (res & -> & Hlen & _ & Hstore).
  fold N in Hstore. destruct (Nat.ltb_spec 200 N) as [_|]; [|lia].
  destruct Hstore as [Hin _]. simpl app. rewrite Hlen.
  pose proof (numberOfPagesToSplitInto_spec N) as [Hbig _]. fold n in Hbig.
  specialize (Hbig HN).
  assert (forall i, i < n ->
            default [] (store' !! shardId aid i ≫= subCategories)
            = take 200 (drop (i * 200) (subCategoriesOrEmpty d))) as Hshard.
  { intros i Hi. pose proof (Hin i Hi) as E. simpl in E. rewrite E. simpl.
    unfold slice. do 2 f_equal; lia. }
  split; [|split].
  - etrans; [|apply (concat_slices n (subCategoriesOrEmpty d)); fold N; lia].
    f_equal. apply list_fmap_ext. intros j i Hi.
    apply lookup_seq in Hi as [-> Hi]. apply Hshard. exact Hi.
  - intros i sd Hi Hsd. pose proof (Hshard i Hi) as E. rewrite Hsd in E.
    simpl in E. rewrite E, length_take. lia.
  - pose proof (Hin 0 ltac:(lia)) as H0. simpl in H0. rewrite shardId_0 in H0.
    rewrite H0. reflexivity.
Qed.

Lemma shards_partition_subCategories_witness :
  exists result store',
    renderArticle exampleEnv exampleJson "Category:Cats" "Main_Page" true exampleStore
    = Return (result, store')
    /\ (store' !! "Category:Cats" ≫= subCategories)
       = Some (take 200 (subCategoriesOrEmpty exampleDetail)).
Proof.
  destruct (shards_partition_subCategories exampleEnv exampleJson "Category:Cats"
              "Main_Page" exampleStore exampleDetail)
    as (result & store' & Hrun & _ & _ & H0).
  - reflexivity.
  - discriminate.
  - intros id d'. eexists. reflexivity.
  - vm_compute. lia.
  - exists result, store'. split; assumption.
Defined.

(** X9.  The main page, and every article when the REST API is unavailable,
    is rendered by the desktop path: whenever [renderArticle] completes
    there, it returns exactly one article, under the original id, with the
    HTML of [renderDesktopArticle]; the store is not written, however many
    sub-categories the article has; and when the document has no (or an
    empty) title, the display title is the id in which only the first
    underscore is replaced by a space. *)
Theorem desktop_path_single_article (env : Env) (json : Json)
  (aid mainPage : string) (restApiAvailable : bool)
  (store store' : gmap string ArticleDetail) (result : list RenderedArticle) :
  aid = mainPage \/ restApiAvailable = false ->
  renderArticle env json aid mainPage restApiAvailable store = Return (result, store') ->
  store' = store
  /\ exists r,
       result = [r]
       /\ articleId r = aid
       /\ renderDesktopArticle env json aid (store !! aid) (String.eqb aid mainPage)
          = Return (html r)
       /\ (Js.truthy (default "" (titleText env (html r))) = false ->
           displayTitle r = Js.replaceFirst "_" " " aid).
Proof.
  intros Hpath Hrun. unfold renderArticle in Hrun.
  assert (String.eqb aid mainPage || negb restApiAvailable = true) as Hd.
  { destruct Hpath as [->| ->]; [rewrite String.eqb_refl; reflexivity|].
    apply orb_true_r. }
  rewrite Hd in Hrun. unfold_bind.
  destruct (renderDesktopArticle env json aid (store !! aid) (String.eqb aid mainPage))
    as [|h]; [discriminate Hrun|].
  injection Hrun as <- <-. split; [reflexivity|].
  eexists. split; [reflexivity|]. simpl. split; [reflexivity|].
  split; [reflexivity|]. unfold getStrippedTitleFromHtml, Js.orElse.
  destruct (titleText env h) as [t|]; simpl; [intros ->|]; reflexivity.
Qed.

Lemma desktop_path_single_article_witness :
  exists r,
    renderArticle untitledEnv visualEditorJson "Main_Page_of_Cats" "Main_Page_of_Cats"
      true {[ "Main_Page_of_Cats" := exampleDetail ]}
    = Return ([r], {[ "Main_Page_of_Cats" := exampleDetail ]})
    /\ displayTitle r = "Main Page_of_Cats".
Proof.
  destruct (desktop_path_single_article untitledEnv visualEditorJson
              "Main_Page_of_Cats" "Main_Page_of_Cats" true
              {[ "Main_Page_of_Cats" := exampleDetail ]}
              {[ "Main_Page_of_Cats" := exampleDetail ]}
              [{| articleId := "Main_Page_of_Cats";
                  displayTitle := "Main Page_of_Cats";
                  html := Some "<p>Cats</p>" |}])
    as (_ & r & Hr & _ & _ & Ht).
  - left. reflexivity.
  - reflexivity.
  - exists r. injection Hr as <-. split; reflexivity.
Defined.

End ShardFacts.

(** ** Media treatment: provenance of the dependencies, shape of the videos *)

Module MediaShapeFacts.

Import Media MediaShape.

Ltac unfold_bind :=
  unfold mbind, completion_bind, mret, completion_ret, ofOption in *.

Lemma pushOnce_elem (cache cache' : gset string) (u : string)
  (deps deps' : list string) (x : string) :
  pushOnce cache deps u = (cache', deps') -> x ∈ deps' -> x ∈ deps \/ x = u.
Proof.
  unfold pushOnce. case_bool_decide; intros [= <- <-] Hx; [auto|].
  apply elem_of_app in Hx as [Hx|Hx]; [auto|].
  apply list_elem_of_singleton in Hx. auto.
Qed.

Lemma treatVideo_provenance (env : Env) (dump : Dump) (articleId : string)
  (v : VideoEl) (cache cache' : gset string) (ds : list string)
  (out : VideoOutcome) (u : string) :
  treatVideo env dump cache articleId v = Return (cache', Some ds, out) ->
  u ∈ ds -> fromVideo env dump v u.
Proof.
  unfold treatVideo, fromVideo. unfold_bind. intros H Hu.
  destruct (getFullUrl env (webUrlHost env) (poster v)) as [pu|] eqn:Hpu;
    [|discriminate H].
  destruct (getMediaBase env pu true) as [pb|]; [|discriminate H].
  destruct (nopic dump || novid dump || nodet dump).
  { injection H as _ <- _. inversion Hu. }
  split; [reflexivity|].
  destruct (pushOnce cache [] pu) as [c1 d1] eqn:E1.
  destruct (sortBy env (widthXHeightSorter env) (sources v)) as [|s0 ss];
    [discriminate H|].
  destruct (getFullUrl env (webUrlHost env) (src s0)) as [su|] eqn:Hsu;
    [|discriminate H].
  destruct (getMediaBase env su true) as [fb|]; [|discriminate H].
  destruct (negb (Js.truthy fb)); [discriminate H|].
  destruct (pushOnce c1 d1 su) as [c2 d2] eqn:E2.
  injection H as _ <- _.
  destruct (pushOnce_elem _ _ _ _ _ _ E2 Hu) as [Hu1| ->].
  - destruct (pushOnce_elem _ _ _ _ _ _ E1 Hu1) as [Hu0| ->]; [inversion Hu0|].
    left. reflexivity.
  - right. exists s0, ss. split; [reflexivity | exact Hsu].
Qed.

Lemma treatImage_provenance (env : Env) (dump : Dump) (articleId : string)
  (img : ImgEl) (cache cache' : gset string) (ds : list string)
  (out : ImgOutcome) (u : string) :
  treatImage env dump cache articleId img = Return (cache', ds, out) ->
  u ∈ ds -> fromImage env dump img u.
Proof.
  unfold treatImage, fromImage, imageKept. unfold_bind. intros H Hu.
  destruct (_ && _ && _).
  - split; [reflexivity|].
    destruct (match imgLink img with Some _ => _ | None => _ end) as [unw det].
    destruct (getFullUrl env (webUrlHost env) (imgSrc img)) as [x|];
      [|discriminate H].
    destruct (getMediaBase env x true) as [b|]; simpl in H.
    + destruct (pushOnce cache [] x) as [c1 d1] eqn:E1.
      injection H as _ <- _.
      destruct (pushOnce_elem _ _ _ _ _ _ E1 Hu) as [Hu0| ->]; [inversion Hu0|].
      reflexivity.
    + injection H as _ <- _. inversion Hu.
  - injection H as _ <- _. inversion Hu.
Qed.

Lemma treatVideos_provenance (env : Env) (dump : Dump) (articleId : string)
  (videos : list VideoEl) (cache cache' : gset string) (deps deps' : list string)
  (outs : list VideoOutcome) (u : string) :
  treatVideos env dump articleId videos cache deps = Return (cache', deps', outs) ->
  u ∈ deps' ->
  u ∈ deps \/ exists v, v ∈ videos /\ fromVideo env dump v u.
Proof.
  revert cache deps cache' deps' outs.
  induction videos as [|v videos IH]; intros cache deps cache' deps' outs H Hu.
  - injection H as _ <- _. auto.
  - simpl in H. unfold_bind.
    destruct (treatVideo env dump cache articleId v) as [|[[c1 r] o]] eqn:Ev;
      [discriminate H|].
    destruct r as [ds|]; [|discriminate H].
    destruct (treatVideos env dump articleId videos c1 (deps ++ ds))
      as [|[[c2 d2] os]] eqn:Er; [discriminate H|].
    injection H as <- <- <-.
    destruct (IH _ _ _ _ _ Er Hu) as [Hd|(v' & Hv' & Hf)].
    + apply elem_of_app in Hd as [Hd|Hd]; [auto|].
      right. exists v. split; [constructor|].
      eapply treatVideo_provenance; eassumption.
    + right. exists v'. split; [constructor; exact Hv' | exact Hf].
Qed.

Lemma treatImages_provenance (env : Env) (dump : Dump) (articleId : string)
  (imgs : list ImgEl) (cache cache' : gset string) (deps deps' : list string)
  (outs : list ImgOutcome) (u : string) :
  treatImages env dump articleId imgs cache deps = Return (cache', deps', outs) ->
  u ∈ deps' ->
  u ∈ deps \/ exists img, img ∈ imgs /\ fromImage env dump img u.
Proof.
  revert cache deps cache' deps' outs.
  induction imgs as [|i imgs IH]; intros cache deps cache' deps' outs H Hu.
  - injection H as _ <- _. auto.
  - simpl in H. unfold_bind.
    destruct (treatImage env dump cache articleId i) as [|[[c1 ds] o]] eqn:Ev;
      [discriminate H|].
    destruct (treatImages env dump articleId imgs c1 (deps ++ ds))
      as [|[[c2 d2] os]] eqn:Er; [discriminate H|].
    injection H as <- <- <-.
    destruct (IH _ _ _ _ _ Er Hu) as [Hd|(i' & Hi' & Hf)].
    + apply elem_of_app in Hd as [Hd|Hd]; [auto|].
      right. exists i. split; [constructor|].
      eapply treatImage_provenance; eassumption.
    + right. exists i'. split; [constructor; exact Hi' | exact Hf].
Qed.

(** X10.  Every URL that [treatMedias] emits is the full URL of the poster
    or of the first sorted source of a video, outside the
    [nopic]/[novid]/[nodet] modes, or the full URL of the [src] of an image
    that passes the test of [treatImage]: in particular no image whose [src]
    is empty or starts with [./Special:FilePath/] is ever enqueued, and with
    [nopic] only formula images are. *)
Theorem mediaDependencies_provenance (env : Env) (dump : Dump) (articleId : string)
  (videos : list VideoEl) (imgs : list ImgEl) (deps : list string)
  (vouts : list VideoOutcome) (iouts : list ImgOutcome) (u : string) :
  treatMedias env dump articleId videos imgs = Return (deps, vouts, iouts) ->
  u ∈ deps ->
  (exists v, v ∈ videos /\ fromVideo env dump v u)
  \/ (exists img, img ∈ imgs /\ fromImage env dump img u).
Proof.
  unfold treatMedias. unfold_bind. intros H Hu.
  destruct (treatVideos env dump articleId videos ∅ []) as [|[[c1 d1] vo]] eqn:Ev;
    [discriminate H|].
  destruct (treatImages env dump articleId imgs c1 d1) as [|[[c2 d2] io]] eqn:Ei;
    [discriminate H|].
  injection H as <- _ _.
  destruct (treatImages_provenance _ _ _ _ _ _ _ _ _ _ Ei Hu) as [Hd|Hi]; [|auto].
  destruct (treatVideos_provenance _ _ _ _ _ _ _ _ _ _ Ev Hd) as [Hn|Hv]; [|auto].
  inversion Hn.
Qed.

Lemma mediaDependencies_provenance_witness :
  exists deps vouts iouts,
    treatMedias exampleEnv exampleDump "London" [] [filePathImg; londonImg]
    = Return (deps, vouts, iouts)
    /\ forall u, u ∈ deps ->
         exists img, img ∈ [filePathImg; londonImg] /\ fromImage exampleEnv exampleDump img u.
Proof.
  eexists _, _, _. split; [vm_compute; reflexivity|].
  intros u Hu.
  destruct (mediaDependencies_provenance exampleEnv exampleDump "London" []
              [filePathImg; londonImg] _ _ _ u ltac:(vm_compute; reflexivity) Hu)
    as [(v & Hv & _)|Hi]; [inversion Hv | exact Hi].
Defined.

Lemma getRelativeFilePath_up (parent fileBase ns : string) :
  String.prefix "../" (getRelativeFilePath parent fileBase ns) = true.
Proof.
  unfold getRelativeFilePath. rewrite Nat.add_1_r.
  generalize (length (Js.split "/" parent) - 1). intros n.
  change (Js.repeatStr "../" (S n)) with ("../" +:+ Js.repeatStr "../" n).
  generalize (Js.repeatStr "../" n). intros r.
  generalize (ns +:+ "/" +:+ fileBase). intros t.
  change (("../" +:+ r) +:+ t) with (String "." (String "." (String "/" (r +:+ t)))).
  simpl. repeat (destruct (Ascii.ascii_dec _ _); [|congruence]).
  destruct (r +:+ t); reflexivity.
Qed.

(** X11.  Whenever [treatVideo] completes, with numbers among which the
    text ["40"] does not read below 40: in the [nopic], [novid] or [nodet]
    mode the video is deleted, nothing is enqueued and the cache is left as
    it was; otherwise the video that is kept shows its controls, has lost
    its [resource] attribute, has no non-empty height that reads below 40,
    and keeps at most one source, whose [src] is a path that climbs out of
    the article ([../...]). *)
Theorem treatVideo_outcome (env : Env) (dump : Dump) (articleId : string)
  (v : VideoEl) (cache cache' : gset string) (ret : option (list string))
  (out : VideoOutcome) :
  heightBelow40 env "40" = false ->
  treatVideo env dump cache articleId v = Return (cache', ret, out) ->
  if nopic dump || novid dump || nodet dump
  then out = VideoDeleted /\ ret = Some [] /\ cache' = cache
  else exists v',
         out = VideoKept v'
         /\ controls v' = Some "40"
         /\ resource v' = None
         /\ (forall h, height v' = Some h ->
               Js.truthy h && heightBelow40 env h = false)
         /\ length (sources v') <= 1
         /\ forall s, s ∈ sources v' ->
              exists path, src s = Some path /\ String.prefix "../" path = true.
Proof.
  unfold treatVideo. unfold_bind. intros H40 H.
  destruct (getFullUrl env (webUrlHost env) (poster v)) as [pu|]; [|discriminate H].
  destruct (getMediaBase env pu true) as [pb|]; [|discriminate H].
  destruct (nopic dump || novid dump || nodet dump).
  { injection H as <- <- <-. auto. }
  destruct (pushOnce cache [] pu) as [c1 d1].
  destruct (sortBy env (widthXHeightSorter env) (sources v)) as [|s0 ss];
    [discriminate H|].
  destruct (getFullUrl env (webUrlHost env) (src s0)) as [su|]; [|discriminate H].
  destruct (getMediaBase env su true) as [fb|]; [|discriminate H].
  assert (forall h,
            match height v with
            | Some h0 => if Js.truthy h0 && heightBelow40 env h0
                         then Some "40" else Some h0
            | None => None
            end = Some h -> Js.truthy h && heightBelow40 env h = false) as Hh.
  { intros h. destruct (height v) as [h0|]; [|discriminate].
    destruct (Js.truthy h0 && heightBelow40 env h0) eqn:E; intros [= <-];
      [rewrite H40; reflexivity | exact E]. }
  destruct (negb (Js.truthy fb)).
  - injection H as _ _ <-. eexists. split; [reflexivity|]. simpl.
    repeat split; auto. intros s Hs. inversion Hs.
  - destruct (pushOnce c1 d1 su) as [c2 d2]. injection H as _ _ <-.
    eexists. split; [reflexivity|]. simpl. repeat split; auto.
    intros s Hs. apply list_elem_of_singleton in Hs as ->. simpl.
    eexists. split; [reflexivity|]. apply getRelativeFilePath_up.
Qed.

Lemma treatVideo_outcome_witness :
  exists cache' ret v',
    treatVideo exampleEnv exampleDump ∅ "London/Tower" londonVideo
    = Return (cache', ret, VideoKept v')
    /\ controls v' = Some "40"
    /\ height v' = Some "40".
Proof.
  pose proof (treatVideo_outcome exampleEnv exampleDump "London/Tower" londonVideo ∅)
    as H.
  destruct (treatVideo exampleEnv exampleDump ∅ "London/Tower" londonVideo)
    as [|[[c r] o]] eqn:E; [discriminate E|].
  destruct (H c r o eq_refl eq_refl) as (v' & -> & Hc & _).
  exists c, r, v'. split; [reflexivity|]. split; [exact Hc|].
  vm_compute in E. injection E as _ _ <-. reflexivity.
Defined.

End MediaShapeFacts.

(** ** The heading clean-up *)

Module HeadingFacts.

Import Dom DomFacts.

(** C6.  With [keepEmptyParagraphs] unset the heading clean-up ends without
    an exception and returns the document without the nodes of a list
    [deleted]; every heading [h1]..[h5] whose parent is not [<summary>] and
    that has no following element sibling, or whose next element sibling is
    a heading of the same or a higher rank, is out of that document: the
    node itself or one of its ancestors is deleted; and for every tag the
    document returned holds as many elements as the given one holds outside
    the deleted nodes.  In particular, of an [<h3>] followed by an [<h3>]
    with nothing after, both are deleted. *)
Theorem empty_headings_removed (doc : Node) :
  (exists deleted,
     removeEmptyParagraphs false doc = Return (prune deleted [] doc)
     /\ (forall level p, 1 <= level <= 5 -> emptyHeading level doc p ->
           removed deleted p = true)
     /\ (forall tag, length (getElementsByTagName tag (prune deleted [] doc))
                     = length (elementsByTagName tag doc deleted)))
  /\ removeEmptyParagraphs false twoHeadings
     = Return (Element "html" [] [Element "head" [] []; Element "body" [] []]).
Proof.
  split; [|vm_compute; reflexivity].
  destruct (levelLoop_spec 5 doc [] ltac:(lia)) as (d' & Hrun & _ & Hchar & Hdel).
  { intros q Hq. inversion Hq. }
  exists d'. split; [unfold removeEmptyParagraphs; rewrite Hrun; reflexivity|].
  split; [exact Hdel|].
  intros tag. apply prune_elementsByTagName. intros Hroot.
  destruct (Hchar [] Hroot) as [Hnil|(k & _ & Hdet)]; [inversion Hnil|].
  exact (detachable_not_root k doc d' Hdet).
Qed.

Lemma empty_headings_removed_witness :
  exists deleted,
    removeEmptyParagraphs false twoHeadings = Return (prune deleted [] twoHeadings)
    /\ removed deleted [1; 0] = true
    /\ removed deleted [1; 1] = true.
Proof.
  destruct (empty_headings_removed twoHeadings) as [(deleted & Hrun & Hdel & _) _].
  exists deleted. split; [exact Hrun|]. split.
  - apply (Hdel 3); [lia|]. split; [|split].
    + exists [], [Text "A"]. reflexivity.
    + eexists. split; [reflexivity | discriminate].
    + right. exists [1; 1], 3, [], [Text "B"]. split; [lia | reflexivity].
  - apply (Hdel 3); [lia|]. split; [|split].
    + exists [], [Text "B"]. reflexivity.
    + eexists. split; [reflexivity | discriminate].
    + left. reflexivity.
Defined.

(** X12.  The heading clean-up of [applyOtherTreatments] never throws,
    whatever the document: every heading it visits has a parent element, so
    reading [parentElement.nodeName] cannot fail.  The document it returns
    has no more elements than the one it was given, in all and for every
    tag. *)
Theorem removeEmptyParagraphs_completes (keepEmptyParagraphs : bool) (doc : Node) :
  exists doc',
    removeEmptyParagraphs keepEmptyParagraphs doc = Return doc'
    /\ countElements doc' <= countElements doc
    /\ forall tag, length (getElementsByTagName tag doc')
                   <= length (getElementsByTagName tag doc).
Proof.
  unfold removeEmptyParagraphs. destruct keepEmptyParagraphs.
  - exists doc. split; [reflexivity|]. split; [lia|]. intros tag. lia.
  - destruct (levelLoop_fresh doc) as (deleted & Hrun & Hroot & _).
    rewrite Hrun. eexists. split; [reflexivity|].
    split; [apply prune_countElements|]. intros tag.
    rewrite (prune_elementsByTagName tag deleted doc Hroot).
    unfold elementsByTagName. apply length_filter.
Qed.


End HeadingFacts.

(** ** Deleting the elements of a tag *)

Module DomDeleteFacts.

Import Dom DomFacts.

(** X14.  The pass that deletes the elements of a tag ([link], [input], and
    [map] with [nopic]) removes every one of them: each element with the
    tag, or one of its ancestors, is deleted, and the document that is left
    holds no element with the tag. *)
Theorem deleteByTag_removes_all (tag : string) (doc : Node) (d : list Path) :
  [] ∉ d ->
  let d' := deleteByTag tag None doc d in
  (forall p, p ∈ getElementsByTagName tag doc -> removed d' p = true)
  /\ getElementsByTagName tag (prune d' [] doc) = [].
Proof.
  intros Hroot d'.
  assert (forall p, p ∈ getElementsByTagName tag doc -> removed d' p = true) as Hall.
  { intros p Hp. destruct (removed d p) eqn:Hrem.
    - apply (removed_mono d d' p); [|exact Hrem].
      intros q Hq. apply deleteLoop_elem. right. exact Hq.
    - apply removed_self, deleteLoop_elem. left.
      apply elementsByTagName_elem. split; [exact Hp | exact Hrem]. }
  split; [exact Hall|].
  apply length_zero_iff_nil. rewrite prune_elementsByTagName.
  - unfold elementsByTagName. rewrite filter_none; [reflexivity|].
    intros p Hp. rewrite (Hall p Hp). discriminate.
  - intros H. apply deleteLoop_elem in H as [H|H]; [|exact (Hroot H)].
    apply elementsByTagName_elem in H as [H _].
    exact (getElementsByTagName_nonempty _ _ H).
Qed.

Lemma deleteByTag_removes_all_witness :
  prune (deleteByTag "link" None twoLinks []) [] twoLinks
  = Element "html" []
      [Element "head" [] [];
       Element "body" [] [Element "p" [] [Text "London"]]]
  /\ getElementsByTagName "link" (prune (deleteByTag "link" None twoLinks []) [] twoLinks)
     = [].
Proof.
  split; [reflexivity|].
  apply (deleteByTag_removes_all "link" twoLinks []). intros H. inversion H.
Defined.

End DomDeleteFacts.

(** ** Downloading the files: every file is accounted for *)

Module DownloadFacts.

Import Files Download.
















End DownloadFacts.
